(** * Verification of the Playwright test template: request helper,
      endpoint registry and environment loader.

    The development embeds three TypeScript modules:
    - [src/api/common-api-requests.ts]  ([sendCommonApiRequest],
      [generateCommonHeaders]),
    - [src/api/config/urls.ts]          ([urlsSchema], [urlsConfig], [urls]),
    - [src/utils/env_helper/env.ts]     ([schema], [env]),
    together with the fragments of the two libraries they call: the promise
    settlement rule of axios and the parsers of zod that the schemas use. *)

From stdpp Require Import gmap strings list fin_maps.
From Stdlib Require Import ZArith.

#[local] Set Warnings "-register-all".
#[local] Open Scope Z_scope.

(* ===================================================================== *)
(** ** JavaScript values                                                  *)
(* ===================================================================== *)

Module Js.

(** The run-time values that cross the interfaces modelled here.  An
    object is a finite map from property names to values. *)
Inductive JsValue : Type :=
  | JsUndefined
  | JsNull
  | JsBool (b : bool)
  | JsNumber (n : Z)
  | JsString (s : string)
  | JsObject (fields : gmap string JsValue).

(** [o[k]]: reading a missing property gives [undefined]. *)
Definition prop (fields : gmap string JsValue) (k : string) : JsValue :=
  default JsUndefined (fields !! k).

(** [x || d] for an optional string [x]: [undefined] and the empty string
    are the two falsy values of that type. *)
Definition str_truthy (s : string) : bool := negb (bool_decide (s = EmptyString)).

Definition or_else (x : option string) (d : string) : string :=
  match x with
  | Some s => if str_truthy s then s else d
  | None => d
  end.

(** [v === 'lit'] for a string literal. *)
Definition strict_eq_str (v : JsValue) (lit : string) : bool :=
  match v with
  | JsString s => bool_decide (s = lit)
  | _ => false
  end.

End Js.
Import Js.

(* ===================================================================== *)
(** ** The HTTP library                                                   *)
(* ===================================================================== *)

Module Axios.

Inductive Verb := VGet | VPost | VPut | VDelete | VPatch.

(** The HTTP method each entry point of the library sends. *)
Definition verb_name (v : Verb) : string :=
  match v with
  | VGet => "GET" | VPost => "POST" | VPut => "PUT"
  | VDelete => "DELETE" | VPatch => "PATCH"
  end.

(** The second (or third) argument of [axios.get], [axios.post], ...:
    the source always passes [{ headers, validateStatus }]. *)
Record AxiosConfig := {
  headers : gmap string string;
  validateStatus : Z → bool;
}.

(** One call into the library. [call_data] is the body argument of
    [post], [put] and [patch]; [get] and [delete] take none. *)
Record AxiosCall := {
  call_verb : Verb;
  call_url : string;
  call_data : option JsValue;
  call_config : AxiosConfig;
}.

Record AxiosResponse := {
  status : Z;
  statusText : string;
  response_headers : gmap string string;
  data : JsValue;
}.

(** What can be thrown through [sendCommonApiRequest]. An [AxiosError]
    carries the response when the rejection comes from the status
    check, and none when no response was received. *)
Inductive Exn :=
  | Error (message : string)
  | AxiosError (response : option AxiosResponse).

(** The far side of the library: the answer the transport produces. *)
Inductive AdapterOutcome :=
  | Responded (r : AxiosResponse)
  | NetworkError.

Definition Network := AxiosCall → AdapterOutcome.

Inductive Outcome (A : Type) :=
  | Resolved (a : A)
  | Rejected (e : Exn).
Arguments Resolved {A} a.
Arguments Rejected {A} e.

(** An asynchronous computation: it reads the network, appends the
    library calls it performs to the log, and resolves or rejects. *)
Definition Async (A : Type) : Type :=
  Network → list AxiosCall → list AxiosCall * Outcome A.

Definition async_ret {A} (a : A) : Async A := λ _ log, (log, Resolved a).

Definition async_bind {A B} (m : Async A) (k : A → Async B) : Async B :=
  λ net log,
    match m net log with
    | (log', Resolved a) => k a net log'
    | (log', Rejected e) => (log', Rejected e)
    end.

Definition throw {A} (e : Exn) : Async A := λ _ log, (log, Rejected e).

#[export] Instance async_mret : MRet Async := @async_ret.
#[export] Instance async_mbind : MBind Async := λ A B k m, async_bind m k.

(** axios [settle]: the promise resolves when
    [!response.status || !validateStatus || validateStatus(status)];
    a [validateStatus] is always supplied here. *)
Definition settle (cfg : AxiosConfig) (r : AxiosResponse) : Outcome AxiosResponse :=
  if bool_decide (status r = 0) || validateStatus cfg (status r)
  then Resolved r
  else Rejected (AxiosError (Some r)).

Definition request (c : AxiosCall) : Async AxiosResponse :=
  λ net log,
    (log ++ [c],
     match net c with
     | Responded r => settle (call_config c) r
     | NetworkError => Rejected (AxiosError None)
     end).

Definition get (url : string) (cfg : AxiosConfig) : Async AxiosResponse :=
  request {| call_verb := VGet; call_url := url; call_data := None; call_config := cfg |}.
Definition post (url : string) (body : JsValue) (cfg : AxiosConfig) : Async AxiosResponse :=
  request {| call_verb := VPost; call_url := url; call_data := Some body; call_config := cfg |}.
Definition put (url : string) (body : JsValue) (cfg : AxiosConfig) : Async AxiosResponse :=
  request {| call_verb := VPut; call_url := url; call_data := Some body; call_config := cfg |}.
Definition delete (url : string) (cfg : AxiosConfig) : Async AxiosResponse :=
  request {| call_verb := VDelete; call_url := url; call_data := None; call_config := cfg |}.
Definition patch (url : string) (body : JsValue) (cfg : AxiosConfig) : Async AxiosResponse :=
  request {| call_verb := VPatch; call_url := url; call_data := Some body; call_config := cfg |}.

End Axios.

(* ===================================================================== *)
(** ** [http-methods.ts] and [models/common.interfaces.ts]                *)
(* ===================================================================== *)

Module HttpMethods.
Definition GET : string := "GET".
Definition POST : string := "POST".
Definition PUT : string := "PUT".
Definition DELETE : string := "DELETE".
Definition PATCH : string := "PATCH".
End HttpMethods.

(** [CommonApiData]: optional members are [None] when the caller omits
    them. [method] is the string the caller passes; the type asks for one
    of the five enum keys, the [switch] decides at run time. *)
Record CommonApiData := {
  baseUrl : option string;
  method : string;
  endpoint : string;
  body : option JsValue;
  token : option string;
}.

(** [CommonApiOptions]. [expectedResponseCode] is [number | null] or
    omitted. [returnType] is kept as the run-time value the [switch]
    inspects, [JsUndefined] when omitted. *)
Record CommonApiOptions := {
  allowBadRequest : option bool;
  expectedResponseCode : option (option Z);
  returnType : JsValue;
}.

(** The literal [{}]. *)
Definition empty_options : CommonApiOptions :=
  {| allowBadRequest := None; expectedResponseCode := None; returnType := JsUndefined |}.

(** [{ ...o, returnType: v }]. *)
Definition with_returnType (o : CommonApiOptions) (v : JsValue) : CommonApiOptions :=
  {| allowBadRequest := allowBadRequest o;
     expectedResponseCode := expectedResponseCode o;
     returnType := v |}.

(* ===================================================================== *)
(** ** [common-api-requests.ts]                                           *)
(* ===================================================================== *)

Module CommonApiRequests.
Import Axios.

(** The three shapes a call can return. *)
Inductive ReturnValue :=
  | RetData (responseData : JsValue)
  | RetBoth (response : AxiosResponse) (responseData : JsValue)
  | RetFull (response : AxiosResponse).

(** The body of [generateCommonHeaders]: the object literal, then the
    conditional assignment. *)
Definition commonHeaders (authToken : string) : gmap string string :=
  let headers : gmap string string :=
    <["Content-Type" := "application/json"]> (<["accept" := "*/*"]> ∅) in
  if str_truthy authToken
  then <["Authorization" := "Bearer " +:+ authToken]> headers
  else headers.

(** The function is [async]: its result is a promise that resolves. *)
Definition generateCommonHeaders (authToken : string) : Async (gmap string string) :=
  mret (commonHeaders authToken).

(** Destructuring defaults of the first two statements. *)
Definition resolve_baseUrl (penv : gmap string string) (d : CommonApiData) : string :=
  default (or_else (penv !! "API_BASE_URL") "http://localhost:3000/api") (baseUrl d).

Definition resolve_body (d : CommonApiData) : JsValue :=
  match body d with
  | None | Some JsUndefined => JsNull
  | Some v => v
  end.

Definition resolve_allowBadRequest (o : CommonApiOptions) : bool :=
  default false (allowBadRequest o).

Definition resolve_returnType (o : CommonApiOptions) : JsValue :=
  match returnType o with
  | JsUndefined => JsString "data"
  | v => v
  end.

(** The second [switch]. *)
Definition select_return (rt : JsValue) (response : AxiosResponse) : ReturnValue :=
  let responseData := data response in
  if strict_eq_str rt "data" then RetData responseData
  else if strict_eq_str rt "both" then RetBoth response responseData
  else if strict_eq_str rt "full" then RetFull response
  else RetData responseData.

(** [sendCommonApiRequest(data, options = {})] run in a process whose
    environment is [penv]. *)
Definition sendCommonApiRequest (penv : gmap string string)
    (d : CommonApiData) (options : option CommonApiOptions) : Async ReturnValue :=
  let options := default empty_options options in
  let baseUrl := resolve_baseUrl penv d in
  let body := resolve_body d in
  let allowBadRequest := resolve_allowBadRequest options in
  let returnType := resolve_returnType options in
  let requestUrl := baseUrl +:+ "/" +:+ endpoint d in
  headers ← generateCommonHeaders (or_else (token d) "token");
  let validateStatus := λ status : Z, allowBadRequest || bool_decide (status < 400) in
  let cfg := {| headers := headers; validateStatus := validateStatus |} in
  response ←
    (if bool_decide (method d = HttpMethods.GET) then Axios.get requestUrl cfg
     else if bool_decide (method d = HttpMethods.POST) then Axios.post requestUrl body cfg
     else if bool_decide (method d = HttpMethods.PUT) then Axios.put requestUrl body cfg
     else if bool_decide (method d = HttpMethods.DELETE) then Axios.delete requestUrl cfg
     else if bool_decide (method d = HttpMethods.PATCH) then Axios.patch requestUrl body cfg
     else throw (Error ("Unsupported method: " +:+ method d)));
  mret (select_return returnType response).

(** Running a call from an empty log. *)
Definition run (net : Network) (penv : gmap string string)
    (d : CommonApiData) (options : option CommonApiOptions)
    : list AxiosCall * Outcome ReturnValue :=
  sendCommonApiRequest penv d options net [].

Definition recognized (m : string) : Prop :=
  m ∈ [HttpMethods.GET; HttpMethods.POST; HttpMethods.PUT; HttpMethods.DELETE; HttpMethods.PATCH].

#[export] Instance recognized_dec (m : string) : Decision (recognized m).
Proof. unfold recognized. apply _. Defined.

(** The configuration every dispatched call carries. *)
Definition call_config_of (d : CommonApiData) (options : option CommonApiOptions) : AxiosConfig :=
  {| headers := commonHeaders (or_else (token d) "token");
     validateStatus := λ status : Z,
       resolve_allowBadRequest (default empty_options options) || bool_decide (status < 400) |}.

(** What the caller gets once the library call has been answered. *)
Definition finish (options : option CommonApiOptions) (cfg : AxiosConfig)
    (answer : AdapterOutcome) : Outcome ReturnValue :=
  match answer with
  | Responded r =>
      match settle cfg r with
      | Resolved r' =>
          Resolved (select_return (resolve_returnType (default empty_options options)) r')
      | Rejected e => Rejected e
      end
  | NetworkError => Rejected (AxiosError None)
  end.

End CommonApiRequests.

(* ===================================================================== *)
(** ** The validation library                                             *)
(* ===================================================================== *)

Module Zod.

Inductive IssueCode := invalid_type | too_small | invalid_url.

(** One entry of a [ZodError]: the kind of failure and the path of
    property names leading to the offending value. The error message
    is the serialised list of issues, paths included. *)
Record ZodIssue := {
  code : IssueCode;
  path : list string;
}.

Inductive ParseResult :=
  | Parsed (value : JsValue)
  | Invalid (issues : list ZodIssue).

(** A schema is its parse function: the path walked so far and the
    input give the output or the issues. *)
Definition ZodType := list string → JsValue → ParseResult.

(** The checks chained on [z.string()]. [.url()] runs the URL parser
    of the run time ([new URL(s)] succeeds exactly when [s] parses as an
    absolute URL); the parser is carried by the check. *)
Inductive StringCheck :=
  | CheckMin (n : nat)
  | CheckUrl (parses : string → bool).

Definition is_undefined (v : JsValue) : bool :=
  match v with JsUndefined => true | _ => false end.

Definition check_issue (p : list string) (s : string) (c : StringCheck) : list ZodIssue :=
  match c with
  | CheckMin n =>
      if bool_decide (String.length s < n)%nat
      then [{| code := too_small; path := p |}] else []
  | CheckUrl parses =>
      if parses s then [] else [{| code := invalid_url; path := p |}]
  end.

(** [z.string()] followed by the checks chained on it: [.url()],
    [.min(n)]. *)
Definition string_ (checks : list StringCheck) : ZodType :=
  λ p v,
    match v with
    | JsString s =>
        match concat (map (check_issue p s) checks) with
        | [] => Parsed (JsString s)
        | issues => Invalid issues
        end
    | _ => Invalid [{| code := invalid_type; path := p |}]
    end.

(** [inner.default(d)]: only [undefined] is replaced. *)
Definition default_ (inner : ZodType) (d : JsValue) : ZodType :=
  λ p v, if is_undefined v then inner p d else inner p v.

(** Every key of the shape is parsed, issues of all keys are
    collected, unknown keys of the input are dropped. A key enters the
    output when its parsed value is not [undefined] or the input had
    the key. *)
Fixpoint parse_shape (shape : list (string * ZodType)) (p : list string)
    (fields : gmap string JsValue) : list ZodIssue * gmap string JsValue :=
  match shape with
  | [] => ([], ∅)
  | (k, t) :: rest =>
      let '(issues, out) := parse_shape rest p fields in
      match t (p ++ [k]) (prop fields k) with
      | Parsed v =>
          (issues,
           if negb (is_undefined v) || bool_decide (is_Some (fields !! k))
           then <[k := v]> out else out)
      | Invalid here => (here ++ issues, out)
      end
  end.

(** [z.object(shape)]. *)
Definition object_ (shape : list (string * ZodType)) : ZodType :=
  λ p v,
    match v with
    | JsObject fields =>
        match parse_shape shape p fields with
        | ([], out) => Parsed (JsObject out)
        | (issues, _) => Invalid issues
        end
    | _ => Invalid [{| code := invalid_type; path := p |}]
    end.

(** [schema.parse(input)]: the value, or a thrown [ZodError]. *)
Definition parse (schema : ZodType) (input : JsValue) : ParseResult :=
  schema [] input.

(** A schema that never raises an empty list of issues. *)
Definition honest (t : ZodType) : Prop := ∀ p v, t p v ≠ Invalid [].

End Zod.

(* ===================================================================== *)
(** ** [config/urls.ts]                                                   *)
(* ===================================================================== *)

Module Urls.
Import Zod.

Definition z_string : ZodType := string_ [].

Definition urlsSchema : ZodType :=
  object_ [
    ("auth", object_ [
       ("login", default_ z_string (JsString "auth/login"));
       ("logout", default_ z_string (JsString "auth/logout"));
       ("refresh", default_ z_string (JsString "auth/refresh")) ]);
    ("users", object_ [
       ("profile", default_ z_string (JsString "users/profile"));
       ("create", default_ z_string (JsString "users"));
       ("update", default_ z_string (JsString "users"));
       ("delete", default_ z_string (JsString "users")) ]);
    ("template", object_ [
       ("getData", default_ z_string (JsString "template/data"));
       ("postData", default_ z_string (JsString "template/data"));
       ("updateData", default_ z_string (JsString "template/data"));
       ("deleteData", default_ z_string (JsString "template/data")) ])
  ].

(** The keys the schema declares, group by group, each with its
    default path. *)
Definition schema_table : list (string * list (string * string)) :=
  [ ("auth", [("login", "auth/login"); ("logout", "auth/logout");
              ("refresh", "auth/refresh")]);
    ("users", [("profile", "users/profile"); ("create", "users");
               ("update", "users"); ("delete", "users")]);
    ("template", [("getData", "template/data"); ("postData", "template/data");
                  ("updateData", "template/data"); ("deleteData", "template/data")]) ].

(** The schema that a table of keys and defaults stands for. *)
Definition leaf_shape (leaves : list (string * string)) : list (string * ZodType) :=
  (λ kd, (kd.1, default_ z_string (JsString kd.2))) <$> leaves.

Definition group_shape (table : list (string * list (string * string)))
    : list (string * ZodType) :=
  (λ gl, (gl.1, object_ (leaf_shape gl.2))) <$> table.

(** What a leaf of the output holds: the string of the input, or the
    default when the input has none. *)
Definition leaf_or_default (given : JsValue) (dflt : string) : JsValue :=
  match given with
  | JsString s => JsString s
  | _ => JsString dflt
  end.

Definition obj (l : list (string * JsValue)) : JsValue := JsObject (list_to_map l).

Definition urlsConfig : JsValue :=
  obj [
    ("auth", obj [
       ("login", JsString "auth/login");
       ("logout", JsString "auth/logout");
       ("refresh", JsString "auth/refresh") ]);
    ("users", obj [
       ("profile", JsString "users/profile");
       ("create", JsString "users");
       ("update", JsString "users");
       ("delete", JsString "users") ]);
    ("template", obj [
       ("getData", JsString "template/data");
       ("postData", JsString "template/data");
       ("updateData", JsString "template/data");
       ("deleteData", JsString "template/data") ])
  ].

(** [export const urls = urlsSchema.parse(urlsConfig)]. *)
Definition urls : ParseResult := parse urlsSchema urlsConfig.

(** [urlsConfig] with one group left out. *)
Definition urlsConfig_without (g : string) : JsValue :=
  match urlsConfig with
  | JsObject fields => JsObject (base.delete g fields)
  | v => v
  end.

End Urls.

(* ===================================================================== *)
(** ** [utils/env_helper/env.ts]                                          *)
(* ===================================================================== *)

Module Env.
Import Zod.

(** [loadDotenv({ path, override: true })]: every variable of the file
    is written into [process.env], replacing a value already there. A
    missing file contributes nothing. *)
Definition loadDotenv (file penv : gmap string string) : gmap string string :=
  file ∪ penv.

(** [process.env] as the object handed to [parse]: all values are
    strings. *)
Definition env_object (penv : gmap string string) : JsValue :=
  JsObject (JsString <$> penv).

Definition required : list string :=
  ["BASE_URL"; "API_BASE_URL"; "MAIN_USER_LOGIN"; "MAIN_USER_PASSWORD"].

Section WithUrlParser.
(** [new URL(s)] of the run time succeeds. *)
Variable valid_url : string → bool.

Definition schema : ZodType :=
  object_ [
    ("BASE_URL", string_ [CheckUrl valid_url]);
    ("API_BASE_URL", string_ [CheckUrl valid_url]);
    ("MAIN_USER_LOGIN", string_ [CheckMin 1]);
    ("MAIN_USER_PASSWORD", string_ [CheckMin 1])
  ].

(** [export const env = schema.parse(process.env)], after the file
    has been merged. *)
Definition env (file penv : gmap string string) : ParseResult :=
  parse schema (env_object (loadDotenv file penv)).

(** What is asked of each variable: the two URLs parse as absolute
    URLs, the two credentials are non-empty. *)
Definition field_valid (f s : string) : bool :=
  if bool_decide (f = "BASE_URL") || bool_decide (f = "API_BASE_URL")
  then valid_url s
  else negb (bool_decide (s = EmptyString)).

End WithUrlParser.

End Env.

(* ===================================================================== *)
(** ** Sample inputs                                                      *)
(* ===================================================================== *)

Module Samples.
Import Axios.

Definition payload : JsValue :=
  JsObject (<["id" := JsNumber 123]> ∅).

Definition response_with (code : Z) : AxiosResponse :=
  {| status := code; statusText := EmptyString; response_headers := ∅; data := payload |}.

(** A server that answers every request with the given status. *)
Definition answering (code : Z) : Network := λ _, Responded (response_with code).

(** [{ method: 'GET', endpoint: 'users/profile/123' }]. *)
Definition get_profile : CommonApiData :=
  {| baseUrl := None; method := "GET"; endpoint := "users/profile/123";
     body := None; token := None |}.

Definition with_token (t : string) : CommonApiData :=
  {| baseUrl := Some "https://x.test/api"; method := "POST"; endpoint := "template/data";
     body := Some payload; token := Some t |}.

Definition with_method (m : string) : CommonApiData :=
  {| baseUrl := None; method := m; endpoint := "template/data";
     body := None; token := None |}.

Definition allow_bad : CommonApiOptions :=
  {| allowBadRequest := Some true; expectedResponseCode := None; returnType := JsUndefined |}.

Definition returning (rt : string) : CommonApiOptions :=
  {| allowBadRequest := None; expectedResponseCode := None; returnType := JsString rt |}.

Definition expecting (code : option Z) : CommonApiOptions :=
  {| allowBadRequest := None; expectedResponseCode := Some code; returnType := JsUndefined |}.

Definition process_env : gmap string string :=
  <["API_BASE_URL" := "https://x.test/api"]> ∅.

(** The environment of the example scenario, and the same without the
    password. *)
Definition partial_env : gmap string string :=
  <["BASE_URL" := "https://x.test"]>
    (<["API_BASE_URL" := "https://x.test/api"]>
       (<["MAIN_USER_LOGIN" := "u@x.test"]> (<["HOME" := "/root"]> ∅))).

Definition full_env : gmap string string :=
  <["MAIN_USER_PASSWORD" := "p"]> partial_env.

(** Stands for the URL parser on the sample values: it accepts the
    strings that begin with an [https] scheme. *)
Definition https_url (s : string) : bool := String.prefix "https://" s.

(** An endpoint mapping whose groups are present but hold no path,
    but for one overridden leaf. *)
Definition sparse_urls : gmap string JsValue :=
  <["auth" := JsObject (<["login" := JsString "v2/login"]> ∅)]>
    (<["users" := JsObject ∅]> (<["template" := JsObject ∅]> ∅)).

End Samples.

(* ===================================================================== *)
(** ** The typed views [UrlsConfig] and the type of [env]                 *)
(* ===================================================================== *)

(** The value [process.env] gives for a variable: its string, or
    [undefined] when the variable is not set. *)
Definition from_env (o : option string) : JsValue :=
  match o with Some s => JsString s | None => JsUndefined end.

(** Reading a property that the type says is a string, or an object. *)
Definition str_at (fields : gmap string JsValue) (k : string) : option string :=
  match fields !! k with
  | Some (JsString s) => Some s
  | _ => None
  end.

Definition obj_at (fields : gmap string JsValue) (k : string)
    : option (gmap string JsValue) :=
  match fields !! k with
  | Some (JsObject o) => Some o
  | _ => None
  end.

(** The string a leaf of the output holds. *)
Definition leaf_str (given : JsValue) (dflt : string) : string :=
  match given with
  | JsString s => s
  | _ => dflt
  end.

(** [z.infer<typeof urlsSchema>]. *)
Module UrlsConfig.

Record Auth := { login : string; logout : string; refresh : string }.
Record Users := { profile : string; create : string; update : string; delete : string }.
Record Template := {
  getData : string; postData : string; updateData : string; deleteData : string;
}.
Record t := { auth : Auth; users : Users; template : Template }.

Definition to_js (u : t) : JsValue :=
  Urls.obj [
    ("auth", Urls.obj [
       ("login", JsString (login (auth u)));
       ("logout", JsString (logout (auth u)));
       ("refresh", JsString (refresh (auth u))) ]);
    ("users", Urls.obj [
       ("profile", JsString (profile (users u)));
       ("create", JsString (create (users u)));
       ("update", JsString (update (users u)));
       ("delete", JsString (delete (users u))) ]);
    ("template", Urls.obj [
       ("getData", JsString (getData (template u)));
       ("postData", JsString (postData (template u)));
       ("updateData", JsString (updateData (template u)));
       ("deleteData", JsString (deleteData (template u))) ])
  ].

Definition of_js (v : JsValue) : option t :=
  match v with
  | JsObject f =>
      a ← obj_at f "auth"; us ← obj_at f "users"; tp ← obj_at f "template";
      a1 ← str_at a "login"; a2 ← str_at a "logout"; a3 ← str_at a "refresh";
      u1 ← str_at us "profile"; u2 ← str_at us "create";
      u3 ← str_at us "update"; u4 ← str_at us "delete";
      t1 ← str_at tp "getData"; t2 ← str_at tp "postData";
      t3 ← str_at tp "updateData"; t4 ← str_at tp "deleteData";
      Some {| auth := {| login := a1; logout := a2; refresh := a3 |};
              users := {| profile := u1; create := u2; update := u3; delete := u4 |};
              template := {| getData := t1; postData := t2;
                             updateData := t3; deleteData := t4 |} |}
  | _ => None
  end.

End UrlsConfig.

(** The registry [urlsConfig] spells out, as a typed value. *)
Definition registry : UrlsConfig.t :=
  {| UrlsConfig.auth :=
       {| UrlsConfig.login := "auth/login"; UrlsConfig.logout := "auth/logout";
          UrlsConfig.refresh := "auth/refresh" |};
     UrlsConfig.users :=
       {| UrlsConfig.profile := "users/profile"; UrlsConfig.create := "users";
          UrlsConfig.update := "users"; UrlsConfig.delete := "users" |};
     UrlsConfig.template :=
       {| UrlsConfig.getData := "template/data"; UrlsConfig.postData := "template/data";
          UrlsConfig.updateData := "template/data";
          UrlsConfig.deleteData := "template/data" |} |}.

(** The type of the exported [env]. *)
Module EnvConfig.

Record t := {
  BASE_URL : string;
  API_BASE_URL : string;
  MAIN_USER_LOGIN : string;
  MAIN_USER_PASSWORD : string;
}.

Definition to_js (c : t) : JsValue :=
  JsObject
    (<["BASE_URL" := JsString (BASE_URL c)]>
       (<["API_BASE_URL" := JsString (API_BASE_URL c)]>
          (<["MAIN_USER_LOGIN" := JsString (MAIN_USER_LOGIN c)]>
             (<["MAIN_USER_PASSWORD" := JsString (MAIN_USER_PASSWORD c)]> ∅)))).

Definition of_js (v : JsValue) : option t :=
  match v with
  | JsObject f =>
      b ← str_at f "BASE_URL"; a ← str_at f "API_BASE_URL";
      l ← str_at f "MAIN_USER_LOGIN"; pw ← str_at f "MAIN_USER_PASSWORD";
      Some {| BASE_URL := b; API_BASE_URL := a;
              MAIN_USER_LOGIN := l; MAIN_USER_PASSWORD := pw |}
  | _ => None
  end.

End EnvConfig.

(* ===================================================================== *)
(** ** Module evaluation                                                  *)
(* ===================================================================== *)

(** What importing [base.api-client.ts] leaves behind: the exported
    [urls] and [env], and [process.env] as [loadDotenv] has changed it.
    Either [parse] throwing makes the import fail with its issues. *)
Module Imports.
Import Zod.

Record Loaded := {
  urls : UrlsConfig.t;
  env : EnvConfig.t;
  process_env : gmap string string;
}.

Inductive ImportResult :=
  | Imported (m : Loaded)
  | ImportFailed (issues : list ZodIssue).

Definition import_all (valid_url : string → bool) (file penv : gmap string string)
    : ImportResult :=
  match Urls.urls with
  | Invalid issues => ImportFailed issues
  | Parsed u =>
      match Env.env valid_url file penv with
      | Invalid issues => ImportFailed issues
      | Parsed e =>
          match UrlsConfig.of_js u, EnvConfig.of_js e with
          | Some u', Some e' =>
              Imported {| urls := u'; env := e';
                          process_env := Env.loadDotenv file penv |}
          | _, _ => ImportFailed []
          end
      end
  end.

End Imports.

(* ===================================================================== *)
(** ** [clients/base.api-client.ts] and
       [clients/template_api_client/template.api-client.ts]               *)
(* ===================================================================== *)

Module TemplateAPIClient.
Import Axios CommonApiRequests.

(** An instance: [BaseAPIClient] has the one member [urls]. *)
Record Client := { urls : UrlsConfig.t }.

(** [new TemplateAPIClient()]: the constructor stores the exported
    [urls]. *)
Definition new (m : Imports.Loaded) : Client := {| urls := Imports.urls m |}.

Definition getBaseUrl (m : Imports.Loaded) (this : Client) : string :=
  EnvConfig.API_BASE_URL (Imports.env m).

Record Credentials := { email : string; password : string }.

Definition credentials_js (c : Credentials) : JsValue :=
  JsObject (<["email" := JsString (email c)]> (<["password" := JsString (password c)]> ∅)).

Definition getData (m : Imports.Loaded) (this : Client) (token : option string)
    : Async ReturnValue :=
  sendCommonApiRequest (Imports.process_env m)
    {| baseUrl := Some (getBaseUrl m this);
       method := HttpMethods.GET;
       endpoint := UrlsConfig.getData (UrlsConfig.template (urls this));
       body := None;
       token := token |}
    None.

Definition postData (m : Imports.Loaded) (this : Client) (data : JsValue)
    (token : option string) : Async ReturnValue :=
  sendCommonApiRequest (Imports.process_env m)
    {| baseUrl := Some (getBaseUrl m this);
       method := HttpMethods.POST;
       endpoint := UrlsConfig.postData (UrlsConfig.template (urls this));
       body := Some data;
       token := token |}
    None.

Definition login (m : Imports.Loaded) (this : Client) (credentials : Credentials)
    : Async ReturnValue :=
  sendCommonApiRequest (Imports.process_env m)
    {| baseUrl := Some (getBaseUrl m this);
       method := HttpMethods.POST;
       endpoint := UrlsConfig.login (UrlsConfig.auth (urls this));
       body := Some (credentials_js credentials);
       token := None |}
    None.

(** The three methods under one name, to speak of any of them. *)
Inductive Operation :=
  | OpGetData (token : option string)
  | OpPostData (data : JsValue) (token : option string)
  | OpLogin (credentials : Credentials).

Definition perform (m : Imports.Loaded) (this : Client) (op : Operation)
    : Async ReturnValue :=
  match op with
  | OpGetData token => getData m this token
  | OpPostData data token => postData m this data token
  | OpLogin credentials => login m this credentials
  end.

End TemplateAPIClient.

(* ===================================================================== *)
(** ** [fixtures/fixture.ts]: the API client fixtures                     *)
(* ===================================================================== *)

Module Fixtures.
Import Axios CommonApiRequests.

(** [use] is the rest of the test, handed the fixture value. *)
Definition templateAPIClient (m : Imports.Loaded)
    (use : TemplateAPIClient.Client → Async unit) : Async unit :=
  let apiClient := TemplateAPIClient.new m in
  use apiClient.

Definition authenticatedTemplateAPIClient (m : Imports.Loaded)
    (use : TemplateAPIClient.Client → Async unit) : Async unit :=
  let apiClient := TemplateAPIClient.new m in
  authResponse ←
    TemplateAPIClient.login m apiClient
      {| TemplateAPIClient.email := EnvConfig.MAIN_USER_LOGIN (Imports.env m);
         TemplateAPIClient.password := EnvConfig.MAIN_USER_PASSWORD (Imports.env m) |};
  use apiClient.

End Fixtures.

(* ===================================================================== *)
(** ** The call a request comes down to                                   *)
(* ===================================================================== *)

Module Dispatch.
Import Axios CommonApiRequests.

Definition verb_of (m : string) : option Verb :=
  if bool_decide (m = HttpMethods.GET) then Some VGet
  else if bool_decide (m = HttpMethods.POST) then Some VPost
  else if bool_decide (m = HttpMethods.PUT) then Some VPut
  else if bool_decide (m = HttpMethods.DELETE) then Some VDelete
  else if bool_decide (m = HttpMethods.PATCH) then Some VPatch
  else None.

Definition carries_body (v : Verb) : bool :=
  match v with
  | VPost | VPut | VPatch => true
  | VGet | VDelete => false
  end.

Definition call_for (penv : gmap string string) (d : CommonApiData)
    (options : option CommonApiOptions) (v : Verb) : AxiosCall :=
  {| call_verb := v;
     call_url := resolve_baseUrl penv d +:+ "/" +:+ endpoint d;
     call_data := if carries_body v then Some (resolve_body d) else None;
     call_config := call_config_of d options |}.

(** What the server can see of a call: everything but the status
    predicate, which stays in the client. *)
Definition wire (c : AxiosCall)
    : Verb * string * option JsValue * gmap string string :=
  (call_verb c, call_url c, call_data c, headers (call_config c)).

(** A network that answers by what it can see. *)
Definition wire_only (net : Network) : Prop :=
  ∀ c c', wire c = wire c' → net c = net c'.

Definition with_allowBadRequest (o : CommonApiOptions) (b : option bool)
    : CommonApiOptions :=
  {| allowBadRequest := b;
     expectedResponseCode := expectedResponseCode o;
     returnType := returnType o |}.

(** Running any computation from an empty log. *)
Definition exec {A} (net : Network) (m : Async A) : list AxiosCall * Outcome A :=
  m net [].

End Dispatch.

(* ===================================================================== *)
(** ** Further sample inputs                                              *)
(* ===================================================================== *)

Module Scenarios.
Import Axios.

Definition loaded : Imports.Loaded :=
  {| Imports.urls :=
       {| UrlsConfig.auth :=
            {| UrlsConfig.login := "auth/login"; UrlsConfig.logout := "auth/logout";
               UrlsConfig.refresh := "auth/refresh" |};
          UrlsConfig.users :=
            {| UrlsConfig.profile := "users/profile"; UrlsConfig.create := "users";
               UrlsConfig.update := "users"; UrlsConfig.delete := "users" |};
          UrlsConfig.template :=
            {| UrlsConfig.getData := "template/data"; UrlsConfig.postData := "template/data";
               UrlsConfig.updateData := "template/data";
               UrlsConfig.deleteData := "template/data" |} |};
     Imports.env :=
       {| EnvConfig.BASE_URL := "https://x.test";
          EnvConfig.API_BASE_URL := "https://x.test/api";
          EnvConfig.MAIN_USER_LOGIN := "u@x.test";
          EnvConfig.MAIN_USER_PASSWORD := "p" |};
     Imports.process_env := Samples.full_env |}.

(** A server that refuses the login endpoint and serves the rest. *)
Definition refusing_login : Network :=
  λ c, if bool_decide (call_url c = "https://x.test/api/auth/login")
       then Responded (Samples.response_with 401)
       else Responded (Samples.response_with 200).

(** A test body that fetches the data once. *)
Definition fetch_once (client : TemplateAPIClient.Client) : Async unit :=
  TemplateAPIClient.getData loaded client None ≫= λ _, mret tt.

(** An endpoint mapping with a number where a path is expected. *)
Definition urls_with_number : gmap string JsValue :=
  <["auth" := JsObject (<["login" := JsNumber 7]> ∅)]> Samples.sparse_urls.

(** A server that cannot be reached. *)
Definition unreachable : Network := λ _, NetworkError.

Definition delete_with_body : CommonApiData :=
  {| baseUrl := None; method := "DELETE"; endpoint := "users";
     body := Some Samples.payload; token := None |}.

Definition put_without_body : CommonApiData :=
  {| baseUrl := None; method := "PUT"; endpoint := "users";
     body := None; token := None |}.

End Scenarios.

(* ===================================================================== *)
(** * Properties of the request helper                                    *)
(* ===================================================================== *)

Import Axios CommonApiRequests.

(** Unfolds the promise plumbing of a call. *)
Ltac unfold_send :=
  unfold run, sendCommonApiRequest, generateCommonHeaders,
    Axios.get, Axios.post, Axios.put, Axios.delete, Axios.patch, request, throw,
    mbind, mret, async_mbind, async_mret, async_bind, async_ret.

Lemma recognized_cases (m : string) :
  recognized m ↔
  m = HttpMethods.GET ∨ m = HttpMethods.POST ∨ m = HttpMethods.PUT ∨
  m = HttpMethods.DELETE ∨ m = HttpMethods.PATCH.
Proof.
  unfold recognized. rewrite !elem_of_cons, elem_of_nil. tauto.
Qed.

(** One branch of the first [switch], once the method is known. *)
Ltac dispatched_branch net :=
  simpl;
  match goal with
  | |- context [net ?c] =>
      exists c; split; [reflexivity|]; split; [reflexivity|]; split; [reflexivity|];
      unfold finish; simpl;
      destruct (net c) as [r|]; simpl; [destruct (settle _ r)|]; reflexivity
  end.

Lemma run_recognized net penv d options :
  recognized (method d) →
  ∃ c, call_url c = resolve_baseUrl penv d +:+ "/" +:+ endpoint d
     ∧ call_config c = call_config_of d options
     ∧ verb_name (call_verb c) = method d
     ∧ run net penv d options = ([c], finish options (call_config c) (net c)).
Proof.
  intros Hrec. apply recognized_cases in Hrec.
  unfold_send.
  destruct Hrec as [H|[H|[H|[H|H]]]]; rewrite H; dispatched_branch net.
Qed.

Lemma run_unrecognized net penv d options :
  ¬ recognized (method d) →
  run net penv d options = ([], Rejected (Error ("Unsupported method: " +:+ method d))).
Proof.
  intros Hrec. rewrite recognized_cases in Hrec.
  unfold_send. simpl.
  repeat case_bool_decide; simpl; try reflexivity; exfalso; naive_solver.
Qed.

(** Every run is one of the two: a single dispatched call whose answer
    decides the outcome, or no call and the unsupported-method error. *)
Lemma run_inv net penv d options log out :
  run net penv d options = (log, out) →
  (recognized (method d) ∧
   ∃ c, log = [c]
      ∧ call_url c = resolve_baseUrl penv d +:+ "/" +:+ endpoint d
      ∧ call_config c = call_config_of d options
      ∧ verb_name (call_verb c) = method d
      ∧ out = finish options (call_config c) (net c))
  ∨ (¬ recognized (method d) ∧ log = [] ∧
     out = Rejected (Error ("Unsupported method: " +:+ method d))).
Proof.
  intros Hrun. destruct (decide (recognized (method d))) as [Hrec|Hrec].
  - left. split; [assumption|].
    destruct (run_recognized net penv d options Hrec) as (c & Hurl & Hcfg & Hverb & Heq).
    rewrite Heq in Hrun. injection Hrun as <- <-. eauto 10.
  - right. rewrite (run_unrecognized net penv d options Hrec) in Hrun.
    injection Hrun as <- <-. auto.
Qed.

Lemma run_single net penv d options c out :
  run net penv d options = ([c], out) →
  call_config c = call_config_of d options ∧ out = finish options (call_config c) (net c).
Proof.
  intros Hrun. apply run_inv in Hrun as [(_ & c' & Hlog & _ & Hcfg & _ & Hout)|(_ & Hlog & _)].
  - injection Hlog as ->. auto.
  - discriminate.
Qed.

Lemma settle_below_400 d options r :
  status r < 400 → settle (call_config_of d options) r = Resolved r.
Proof.
  intros Hlt. unfold settle, call_config_of. simpl.
  rewrite (bool_decide_eq_true_2 (status r < 400) Hlt).
  rewrite !orb_true_r. reflexivity.
Qed.

Lemma settle_from_400 d options r :
  400 ≤ status r →
  settle (call_config_of d options) r =
    if resolve_allowBadRequest (default empty_options options)
    then Resolved r else Rejected (AxiosError (Some r)).
Proof.
  intros Hge. unfold settle, call_config_of. simpl.
  rewrite (bool_decide_eq_false_2 (status r < 400)) by lia.
  rewrite (bool_decide_eq_false_2 (status r = 0)) by lia.
  rewrite orb_false_r. simpl. reflexivity.
Qed.

(** C1. Status gating: a response below 400 makes the call return,
    whatever [allowBadRequest] is; a response of 400 or more makes it
    raise when [allowBadRequest] is false or left out, and makes it
    return the value selected from that response when [allowBadRequest]
    is true. *)
Theorem status_gating net penv d options c r out :
  run net penv d options = ([c], out) →
  net c = Responded r →
  let opts := default empty_options options in
  (status r < 400 →
     out = Resolved (select_return (resolve_returnType opts) r)) ∧
  (400 ≤ status r →
     allowBadRequest opts = None ∨ allowBadRequest opts = Some false →
     out = Rejected (AxiosError (Some r))) ∧
  (400 ≤ status r →
     allowBadRequest opts = Some true →
     out = Resolved (select_return (resolve_returnType opts) r)).
Proof.
  intros Hrun Hnet opts.
  apply run_single in Hrun as [Hcfg ->].
  rewrite Hnet, Hcfg. unfold finish. repeat split.
  - intros Hlt. rewrite settle_below_400 by assumption. reflexivity.
  - intros Hge Hallow. rewrite settle_from_400 by assumption.
    unfold resolve_allowBadRequest. fold opts.
    destruct Hallow as [-> | ->]; reflexivity.
  - intros Hge Hallow. rewrite settle_from_400 by assumption.
    unfold resolve_allowBadRequest. fold opts. rewrite Hallow. reflexivity.
Qed.

Lemma status_gating_witness :
  snd (run (Samples.answering 200) ∅ Samples.get_profile None)
    = Resolved (RetData Samples.payload) ∧
  snd (run (Samples.answering 401) ∅ Samples.get_profile None)
    = Rejected (AxiosError (Some (Samples.response_with 401))) ∧
  snd (run (Samples.answering 401) ∅ Samples.get_profile (Some Samples.allow_bad))
    = Resolved (RetData Samples.payload).
Proof.
  split; [|split].
  - edestruct (status_gating (Samples.answering 200) ∅ Samples.get_profile None)
      as (H & _ & _); [vm_compute; reflexivity | reflexivity |].
    simpl. apply H. vm_compute. reflexivity.
  - edestruct (status_gating (Samples.answering 401) ∅ Samples.get_profile None)
      as (_ & H & _); [vm_compute; reflexivity | reflexivity |].
    simpl. apply H; [vm_compute; discriminate | left; reflexivity].
  - edestruct (status_gating (Samples.answering 401) ∅ Samples.get_profile
                 (Some Samples.allow_bad))
      as (_ & _ & H); [vm_compute; reflexivity | reflexivity |].
    simpl. apply H; [vm_compute; discriminate | reflexivity].
Defined.

Lemma settle_resolved cfg r r' : settle cfg r = Resolved r' → r' = r.
Proof.
  unfold settle. destruct (_ || _); [|discriminate]. intros [= ->]. reflexivity.
Qed.



(** C6. A recognized method dispatches exactly one call into the HTTP
    library, of that method; any other method dispatches none and the
    call fails with the error that names the method. *)
Theorem one_call_per_invocation net penv d options :
  (recognized (method d) →
     ∃ c, (run net penv d options).1 = [c] ∧ verb_name (call_verb c) = method d) ∧
  (¬ recognized (method d) →
     run net penv d options
       = ([], Rejected (Error ("Unsupported method: " +:+ method d)))).
Proof.
  split.
  - intros Hrec.
    destruct (run_recognized net penv d options Hrec) as (c & _ & _ & Hverb & ->).
    exists c. auto.
  - apply run_unrecognized.
Qed.

Lemma one_call_per_invocation_witness :
  (∃ c, (run (Samples.answering 200) ∅ (Samples.with_method "PATCH") None).1 = [c]
        ∧ verb_name (call_verb c) = "PATCH") ∧
  run (Samples.answering 200) ∅ (Samples.with_method "HEAD") None
    = ([], Rejected (Error "Unsupported method: HEAD")).
Proof.
  split.
  - apply (proj1 (one_call_per_invocation (Samples.answering 200) ∅
                    (Samples.with_method "PATCH") None)).
    apply recognized_cases. simpl. auto.
  - apply (proj2 (one_call_per_invocation (Samples.answering 200) ∅
                    (Samples.with_method "HEAD") None)).
    rewrite recognized_cases. simpl.
    intros [H|[H|[H|[H|H]]]]; discriminate H.
Defined.

Lemma length_app_string (s1 s2 : string) :
  String.length (s1 +:+ s2) = (String.length s1 + String.length s2)%nat.
Proof.
  induction s1 as [|a s1 IH]; simpl; [reflexivity|]. rewrite IH. reflexivity.
Qed.

(** The calls of a run, one by one. *)
Lemma run_calls net penv d options c :
  c ∈ (run net penv d options).1 →
  call_url c = resolve_baseUrl penv d +:+ "/" +:+ endpoint d
  ∧ call_config c = call_config_of d options.
Proof.
  intros Hin.
  destruct (run net penv d options) as [log out] eqn:Hrun. simpl in Hin.
  apply run_inv in Hrun as [(_ & c' & -> & Hurl & Hcfg & _)|(_ & -> & _)].
  - apply list_elem_of_singleton in Hin as ->. auto.
  - apply elem_of_nil in Hin as [].
Qed.

(** C7. The URL of the dispatched request is the base URL, one slash,
    and the endpoint, in that order and with nothing else between. *)
Theorem request_url_join net penv d options c :
  c ∈ (run net penv d options).1 →
  call_url c = resolve_baseUrl penv d +:+ "/" +:+ endpoint d ∧
  String.length (call_url c)
    = (String.length (resolve_baseUrl penv d) + 1 + String.length (endpoint d))%nat.
Proof.
  intros Hin. apply run_calls in Hin as [Hurl _].
  split; [assumption|].
  rewrite Hurl, !length_app_string. simpl. lia.
Qed.

Lemma request_url_join_witness :
  ∃ c, c ∈ (run (Samples.answering 200) Samples.process_env Samples.get_profile None).1
     ∧ call_url c = "https://x.test/api/users/profile/123".
Proof.
  eexists. split.
  - vm_compute. apply list_elem_of_here.
  - refine (proj1 (request_url_join (Samples.answering 200) Samples.process_env
                     Samples.get_profile None _ _)).
    vm_compute. apply list_elem_of_here.
Defined.

(** Two option records that agree on what the function reads give the
    same run. *)
Lemma run_options_ext net penv d o1 o2 :
  resolve_allowBadRequest (default empty_options o1)
    = resolve_allowBadRequest (default empty_options o2) →
  (∀ r, select_return (resolve_returnType (default empty_options o1)) r
        = select_return (resolve_returnType (default empty_options o2)) r) →
  run net penv d o1 = run net penv d o2.
Proof.
  intros Hallow Hret.
  destruct (decide (recognized (method d))) as [Hrec|Hrec].
  - apply recognized_cases in Hrec.
    unfold_send. rewrite Hallow.
    destruct Hrec as [H|[H|[H|[H|H]]]]; rewrite H; simpl;
      match goal with
      | |- context [net ?c] =>
          destruct (net c) as [r|]; simpl; [|reflexivity];
          destruct (settle _ r); simpl; [rewrite Hret|]; reflexivity
      end.
  - rewrite !run_unrecognized by assumption. reflexivity.
Qed.

(** C9. [expectedResponseCode] is never read: two calls whose options
    differ in nothing else send the same request and end the same way.
    The options may also be left out on either side. *)
Theorem expectedResponseCode_ignored net penv d (o1 o2 : option CommonApiOptions) :
  allowBadRequest (default empty_options o1) = allowBadRequest (default empty_options o2) →
  returnType (default empty_options o1) = returnType (default empty_options o2) →
  run net penv d o1 = run net penv d o2.
Proof.
  intros Hallow Hret. apply run_options_ext.
  - unfold resolve_allowBadRequest. rewrite Hallow. reflexivity.
  - intros r. unfold resolve_returnType. rewrite Hret. reflexivity.
Qed.

Lemma expectedResponseCode_ignored_witness :
  run (Samples.answering 200) ∅ Samples.get_profile (Some (Samples.expecting (Some 404)))
    = run (Samples.answering 200) ∅ Samples.get_profile (Some (Samples.expecting None))
  ∧ run (Samples.answering 500) ∅ Samples.get_profile (Some (Samples.expecting (Some 500)))
    = run (Samples.answering 500) ∅ Samples.get_profile None.
Proof.
  split.
  - apply (expectedResponseCode_ignored (Samples.answering 200) ∅ Samples.get_profile
             (Some (Samples.expecting (Some 404))) (Some (Samples.expecting None)));
      reflexivity.
  - apply (expectedResponseCode_ignored (Samples.answering 500) ∅ Samples.get_profile
             (Some (Samples.expecting (Some 500))) None);
      reflexivity.
Defined.

Lemma select_return_fallback v r :
  v ≠ JsString "data" → v ≠ JsString "both" → v ≠ JsString "full" →
  select_return (resolve_returnType {| allowBadRequest := None;
                                       expectedResponseCode := None;
                                       returnType := v |}) r
  = RetData (data r).
Proof.
  intros Hdata Hboth Hfull. unfold resolve_returnType, select_return. simpl.
  destruct v as [| | b | n | s | fields]; simpl; try reflexivity.
  repeat case_bool_decide; subst; try reflexivity; congruence.
Qed.

Lemma settle_allowed d options r :
  resolve_allowBadRequest (default empty_options options) = true →
  settle (call_config_of d options) r = Resolved r.
Proof.
  intros Hallow. unfold settle, call_config_of. simpl.
  rewrite Hallow. rewrite orb_true_r. reflexivity.
Qed.

(** C10. A [returnType] that is none of the three names does not make
    the call fail: the call behaves as with ['data']; with a recognized
    method it dispatches its one request, and when that request is
    answered with a status the gate lets through (below 400, or any
    status with [allowBadRequest] true) the call returns the payload of
    the response, and the payload alone. *)
Theorem unknown_returnType_is_data net penv d o v :
  v ≠ JsString "data" → v ≠ JsString "both" → v ≠ JsString "full" →
  run net penv d (Some (with_returnType o v))
    = run net penv d (Some (with_returnType o (JsString "data")))
  ∧ (recognized (method d) →
     ∃ c, (run net penv d (Some (with_returnType o v))).1 = [c] ∧
       verb_name (call_verb c) = method d ∧
       ∀ r, net c = Responded r →
         status r < 400 ∨ allowBadRequest o = Some true →
         (run net penv d (Some (with_returnType o v))).2
           = Resolved (RetData (data r))).
Proof.
  intros Hdata Hboth Hfull.
  assert (Hsel : ∀ r, select_return (resolve_returnType (with_returnType o v)) r
                      = RetData (data r)).
  { intros r. apply (select_return_fallback v r); assumption. }
  split.
  - apply run_options_ext; simpl; [reflexivity|].
    intros r. rewrite Hsel. reflexivity.
  - intros Hrec.
    destruct (run_recognized net penv d (Some (with_returnType o v)) Hrec)
      as (c & _ & Hcfg & Hverb & Hrun).
    exists c. rewrite Hrun. simpl. split; [reflexivity|]. split; [exact Hverb|].
    intros r Hnet Hgate. rewrite Hnet, Hcfg. unfold finish.
    assert (Hsettle : settle (call_config_of d (Some (with_returnType o v))) r
                      = Resolved r).
    { destruct Hgate as [Hlt | Hallow].
      - apply settle_below_400. assumption.
      - apply settle_allowed. unfold resolve_allowBadRequest. simpl.
        rewrite Hallow. reflexivity. }
    rewrite Hsettle. simpl. rewrite Hsel. reflexivity.
Qed.

Lemma unknown_returnType_is_data_witness :
  ∃ c, (run (Samples.answering 200) ∅ Samples.get_profile
          (Some (with_returnType empty_options (JsString "raw")))).1 = [c]
     ∧ call_url c = "http://localhost:3000/api/users/profile/123"
     ∧ (run (Samples.answering 200) ∅ Samples.get_profile
          (Some (with_returnType empty_options (JsString "raw")))).2
       = Resolved (RetData Samples.payload)
     ∧ (run (Samples.answering 404) ∅ Samples.get_profile
          (Some (with_returnType Samples.allow_bad (JsNumber 7)))).2
       = Resolved (RetData Samples.payload).
Proof.
  destruct (unknown_returnType_is_data (Samples.answering 200) ∅ Samples.get_profile
              empty_options (JsString "raw")) as [_ Hcall]; [discriminate ..|].
  destruct Hcall as (c & Hlog & _ & Hres).
  { apply recognized_cases. left. reflexivity. }
  exists c. split; [exact Hlog|]. split.
  - vm_compute in Hlog. injection Hlog as <-. reflexivity.
  - split.
    + apply (Hres (Samples.response_with 200)); [reflexivity|].
      left. vm_compute. reflexivity.
    + destruct (unknown_returnType_is_data (Samples.answering 404) ∅
                  Samples.get_profile Samples.allow_bad (JsNumber 7))
        as [_ Hcall']; [discriminate ..|].
      destruct Hcall' as (c' & _ & _ & Hres').
      { apply recognized_cases. left. reflexivity. }
      apply (Hres' (Samples.response_with 404)); [reflexivity|].
      right. reflexivity.
Defined.

Lemma commonHeaders_fixed authToken :
  commonHeaders authToken !! "accept" = Some "*/*" ∧
  commonHeaders authToken !! "Content-Type" = Some "application/json".
Proof.
  unfold commonHeaders. destruct (str_truthy authToken); split;
    repeat (rewrite lookup_insert_ne by discriminate);
    rewrite lookup_insert_eq; reflexivity.
Qed.

Lemma commonHeaders_authorization authToken :
  authToken ≠ EmptyString →
  commonHeaders authToken !! "Authorization" = Some ("Bearer " +:+ authToken).
Proof.
  intros Hne. unfold commonHeaders, str_truthy.
  rewrite bool_decide_eq_false_2 by assumption. simpl.
  apply lookup_insert_eq.
Qed.

(** C5, as the code has it. Every dispatched request carries
    [accept: */*], [Content-Type: application/json] and an
    [Authorization] header; the bearer is the caller's token when that
    token is a non-empty string, and the placeholder ['token'] when the
    token is left out or is the empty string. *)
Theorem request_headers net penv d options c :
  c ∈ (run net penv d options).1 →
  let h := headers (call_config c) in
  h !! "accept" = Some "*/*" ∧
  h !! "Content-Type" = Some "application/json" ∧
  is_Some (h !! "Authorization") ∧
  (∀ t, token d = Some t → t ≠ EmptyString →
        h !! "Authorization" = Some ("Bearer " +:+ t)) ∧
  (token d = None ∨ token d = Some EmptyString →
        h !! "Authorization" = Some "Bearer token").
Proof.
  intros Hin h. apply run_calls in Hin as [_ Hcfg].
  subst h. rewrite Hcfg. unfold call_config_of. simpl.
  destruct (commonHeaders_fixed (or_else (token d) "token")) as [Hacc Hct].
  assert (Hne : or_else (token d) "token" ≠ EmptyString).
  { unfold or_else, str_truthy. destruct (token d) as [t|]; [|discriminate].
    case_bool_decide; simpl; [discriminate | assumption]. }
  pose proof (commonHeaders_authorization _ Hne) as Hauth.
  split; [assumption|]. split; [assumption|]. split; [rewrite Hauth; eauto|].
  split.
  - intros t Ht Htne. rewrite Hauth, Ht. unfold or_else, str_truthy.
    rewrite bool_decide_eq_false_2 by assumption. reflexivity.
  - intros [Ht | Ht]; rewrite Hauth, Ht; reflexivity.
Qed.

Lemma request_headers_witness :
  ∃ c, c ∈ (run (Samples.answering 200) ∅ (Samples.with_token "s3cr3t") None).1
     ∧ headers (call_config c) !! "Authorization" = Some "Bearer s3cr3t".
Proof.
  eexists. split.
  - vm_compute. apply list_elem_of_here.
  - refine (proj1 (proj2 (proj2 (proj2
      (request_headers (Samples.answering 200) ∅ (Samples.with_token "s3cr3t")
         None _ _)))) "s3cr3t" eq_refl _).
    + vm_compute. apply list_elem_of_here.
    + discriminate.
Defined.

(** C5 as written fails for a caller who supplies the empty string as
    token: the header carries the placeholder, not the supplied value. *)
Lemma empty_token_gets_placeholder :
  token (Samples.with_token EmptyString) = Some EmptyString ∧
  ∃ c, (run (Samples.answering 200) ∅ (Samples.with_token EmptyString) None).1 = [c]
     ∧ headers (call_config c) !! "Authorization" = Some "Bearer token"
     ∧ headers (call_config c) !! "Authorization" ≠ Some ("Bearer " +:+ EmptyString).
Proof.
  split; [reflexivity|]. eexists. split; [vm_compute; reflexivity|].
  split; [vm_compute; reflexivity | vm_compute; discriminate].
Qed.

(** C8, as the code has it. A supplied [baseUrl] is the base of the
    request URL. Without one the base is the value of [API_BASE_URL] in
    the process environment when that value is a non-empty string, and
    [http://localhost:3000/api] when the variable is unset or empty. *)
Theorem base_url_resolution net penv d options c :
  c ∈ (run net penv d options).1 →
  ∃ base, call_url c = base +:+ "/" +:+ endpoint d ∧
    (∀ b, baseUrl d = Some b → base = b) ∧
    (baseUrl d = None →
       ∀ v, penv !! "API_BASE_URL" = Some v → v ≠ EmptyString → base = v) ∧
    (baseUrl d = None →
       penv !! "API_BASE_URL" = None ∨ penv !! "API_BASE_URL" = Some EmptyString →
       base = "http://localhost:3000/api").
Proof.
  intros Hin. apply run_calls in Hin as [Hurl _].
  exists (resolve_baseUrl penv d). split; [assumption|].
  unfold resolve_baseUrl. repeat split.
  - intros b ->. reflexivity.
  - intros -> v -> Hne. simpl. unfold str_truthy.
    rewrite bool_decide_eq_false_2 by assumption. reflexivity.
  - intros -> [-> | ->]; reflexivity.
Qed.

Lemma base_url_resolution_witness :
  ∃ c, c ∈ (run (Samples.answering 200) Samples.process_env Samples.get_profile None).1
     ∧ ∃ base, call_url c = base +:+ "/users/profile/123" ∧ base = "https://x.test/api".
Proof.
  eexists. split; [vm_compute; apply list_elem_of_here|].
  destruct (base_url_resolution (Samples.answering 200) Samples.process_env
              Samples.get_profile None _ ltac:(vm_compute; apply list_elem_of_here))
    as (base & Hurl & _ & Henv & _).
  exists base. split; [exact Hurl|].
  apply Henv; [reflexivity | reflexivity | discriminate].
Defined.

(** C8 as written fails when [API_BASE_URL] is unset or empty: the
    request goes to the built-in address, which is not a value of the
    environment. *)
Lemma missing_api_base_url_uses_localhost :
  (baseUrl Samples.get_profile = None ∧
   (∅ : gmap string string) !! "API_BASE_URL" = None ∧
   ∃ c, (run (Samples.answering 200) ∅ Samples.get_profile None).1 = [c]
      ∧ call_url c = "http://localhost:3000/api/users/profile/123") ∧
  (∃ c, (run (Samples.answering 200) (<["API_BASE_URL" := EmptyString]> ∅)
           Samples.get_profile None).1 = [c]
      ∧ call_url c = "http://localhost:3000/api/users/profile/123"
      ∧ call_url c ≠ EmptyString +:+ "/" +:+ endpoint Samples.get_profile).
Proof.
  split.
  - split; [reflexivity|]. split; [reflexivity|].
    eexists. split; vm_compute; reflexivity.
  - eexists. split; [vm_compute; reflexivity|].
    split; [vm_compute; reflexivity | vm_compute; discriminate].
Qed.

(* ===================================================================== *)
(** * Properties of object schemas                                        *)
(* ===================================================================== *)

Section ObjectSchemas.
Import Zod.

(** When every key of the shape parses to a defined value, no issue is
    raised and the output holds that value at each key. *)
Lemma parse_shape_all_parsed shape p fields :
  NoDup shape.*1 →
  (∀ k t, (k, t) ∈ shape →
     ∃ v, t (p ++ [k]) (prop fields k) = Parsed v ∧ is_undefined v = false) →
  ∃ out, parse_shape shape p fields = ([], out) ∧
    ∀ k t, (k, t) ∈ shape →
      ∃ v, t (p ++ [k]) (prop fields k) = Parsed v ∧ out !! k = Some v.
Proof.
  induction shape as [|[k0 t0] rest IH]; intros Hnd Hall.
  - exists ∅. split; [reflexivity|]. intros k t Hin. inversion Hin.
  - simpl in Hnd. apply NoDup_cons in Hnd as [Hfresh Hnd].
    destruct IH as (out & Hrest & Hout); [assumption| |].
    { intros k t Hin. apply Hall. right. assumption. }
    destruct (Hall k0 t0) as (v0 & Hv0 & Hdef); [left|].
    simpl. rewrite Hrest, Hv0, Hdef. simpl.
    eexists. split; [reflexivity|].
    intros k t Hin. apply elem_of_cons in Hin as [[= -> ->]|Hin].
    + exists v0. split; [assumption|]. apply lookup_insert_eq.
    + destruct (Hout k t Hin) as (v & Hv & Hlook).
      exists v. split; [assumption|].
      rewrite lookup_insert_ne; [assumption|].
      intros ->. apply Hfresh. apply list_elem_of_fmap.
      exists (k, t). split; [reflexivity | assumption].
Qed.

(** The issues of a key that fails are among the issues of the
    object. *)
Lemma parse_shape_keeps_issues shape p fields k t here :
  (k, t) ∈ shape →
  t (p ++ [k]) (prop fields k) = Invalid here →
  ∀ i, i ∈ here → i ∈ (parse_shape shape p fields).1.
Proof.
  induction shape as [|[k0 t0] rest IH]; intros Hin Hbad i Hi.
  - inversion Hin.
  - simpl. destruct (parse_shape rest p fields) as [issues out] eqn:Hrest.
    apply elem_of_cons in Hin as [[= <- <-]|Hin].
    + rewrite Hbad. simpl. apply elem_of_app. left. assumption.
    + specialize (IH Hin Hbad i Hi). simpl in IH.
      destruct (t0 (p ++ [k0]) (prop fields k0)); simpl; [assumption|].
      apply elem_of_app. right. assumption.
Qed.

Lemma object_invalid shape p fields i :
  i ∈ (parse_shape shape p fields).1 →
  ∃ issues, object_ shape p (JsObject fields) = Invalid issues ∧ i ∈ issues.
Proof.
  intros Hi. unfold object_.
  destruct (parse_shape shape p fields) as [[|i0 issues] out]; simpl in Hi.
  - inversion Hi.
  - eexists. split; [reflexivity | assumption].
Qed.

End ObjectSchemas.

(* ===================================================================== *)
(** * Properties of the endpoint registry                                 *)
(* ===================================================================== *)

Import Zod Urls.

Lemma urlsSchema_table : urlsSchema = object_ (group_shape schema_table).
Proof. reflexivity. Qed.

Lemma leaf_shape_keys leaves : (leaf_shape leaves).*1 = leaves.*1.
Proof.
  unfold leaf_shape. rewrite <- list_fmap_compose. reflexivity.
Qed.

Lemma group_shape_keys table : (group_shape table).*1 = table.*1.
Proof.
  unfold group_shape. rewrite <- list_fmap_compose. reflexivity.
Qed.

(** A leaf with a default accepts a missing value and a string. *)
Lemma default_leaf_parsed p v dflt :
  v = JsUndefined ∨ (∃ s, v = JsString s) →
  default_ z_string (JsString dflt) p v = Parsed (leaf_or_default v dflt).
Proof.
  intros [-> | [s ->]]; reflexivity.
Qed.

(** A group whose leaves are strings or missing parses to a group that
    holds every declared leaf. *)
Lemma group_parsed leaves p gf :
  NoDup leaves.*1 →
  (∀ k dflt, (k, dflt) ∈ leaves →
     prop gf k = JsUndefined ∨ ∃ s, prop gf k = JsString s) →
  ∃ gout, object_ (leaf_shape leaves) p (JsObject gf) = Parsed (JsObject gout) ∧
    ∀ k dflt, (k, dflt) ∈ leaves →
      gout !! k = Some (leaf_or_default (prop gf k) dflt).
Proof.
  intros Hnd Hleaves.
  assert (Hshape : ∀ k t, (k, t) ∈ leaf_shape leaves →
            ∃ v, t (p ++ [k]) (prop gf k) = Parsed v ∧ is_undefined v = false).
  { intros k t Hin. apply list_elem_of_fmap in Hin as ([k' dflt] & [= -> ->] & Hin).
    simpl. rewrite default_leaf_parsed by eauto.
    eexists. split; [reflexivity|].
    destruct (Hleaves _ _ Hin) as [-> | [s ->]]; reflexivity. }
  destruct (parse_shape_all_parsed (leaf_shape leaves) p gf) as (gout & Hparse & Hout);
    [rewrite leaf_shape_keys; assumption | assumption |].
  exists gout. split.
  - unfold object_. rewrite Hparse. reflexivity.
  - intros k dflt Hin.
    destruct (Hout k (default_ z_string (JsString dflt))) as (v & Hv & Hlook).
    { apply list_elem_of_fmap. exists (k, dflt). split; [reflexivity | assumption]. }
    rewrite default_leaf_parsed in Hv by eauto. injection Hv as <-. assumption.
Qed.

Lemma table_parsed table fields :
  NoDup table.*1 →
  Forall (λ gl, NoDup gl.2.*1) table →
  (∀ g leaves, (g, leaves) ∈ table →
     ∃ gf, fields !! g = Some (JsObject gf) ∧
       ∀ k dflt, (k, dflt) ∈ leaves →
         prop gf k = JsUndefined ∨ ∃ s, prop gf k = JsString s) →
  ∃ out, parse (object_ (group_shape table)) (JsObject fields) = Parsed (JsObject out) ∧
    ∀ g leaves, (g, leaves) ∈ table →
      ∃ gf gout, fields !! g = Some (JsObject gf) ∧ out !! g = Some (JsObject gout) ∧
        ∀ k dflt, (k, dflt) ∈ leaves →
          gout !! k = Some (leaf_or_default (prop gf k) dflt).
Proof.
  intros Hnd Hleafnd Hgroups. rewrite Forall_forall in Hleafnd.
  assert (Hgroup : ∀ g leaves, (g, leaves) ∈ table →
            ∃ gf gout, fields !! g = Some (JsObject gf) ∧
              object_ (leaf_shape leaves) ([] ++ [g]) (prop fields g)
                = Parsed (JsObject gout) ∧
              ∀ k dflt, (k, dflt) ∈ leaves →
                gout !! k = Some (leaf_or_default (prop gf k) dflt)).
  { intros g leaves Hin. destruct (Hgroups g leaves Hin) as (gf & Hgf & Hleaves).
    destruct (group_parsed leaves ([] ++ [g]) gf) as (gout & Hparse & Hout);
      [exact (Hleafnd _ Hin) | assumption |].
    exists gf, gout. unfold prop at 1. rewrite Hgf. auto. }
  destruct (parse_shape_all_parsed (group_shape table) [] fields) as (out & Hparse & Hout).
  { rewrite group_shape_keys. assumption. }
  { intros g t Hin. apply list_elem_of_fmap in Hin as ([g' leaves] & [= -> ->] & Hin).
    destruct (Hgroup _ _ Hin) as (gf & gout & _ & Hg & _). simpl.
    exists (JsObject gout). split; [assumption | reflexivity]. }
  exists out. split.
  - unfold parse, object_. rewrite Hparse. reflexivity.
  - intros g leaves Hin.
    destruct (Hgroup _ _ Hin) as (gf & gout & Hgf & Hg & Hleaves).
    destruct (Hout g (object_ (leaf_shape leaves))) as (v & Hv & Hlook).
    { apply list_elem_of_fmap. exists (g, leaves). split; [reflexivity | assumption]. }
    rewrite Hg in Hv. injection Hv as <-.
    exists gf, gout. auto.
Qed.

Lemma schema_table_keys_distinct :
  NoDup schema_table.*1 ∧ Forall (λ gl, NoDup gl.2.*1) schema_table.
Proof.
  split; [|repeat apply Forall_cons_2; try apply Forall_nil_2];
    apply (bool_decide_unpack _); vm_compute; exact I.
Qed.

(** C3, as the code has it. When every endpoint group is present in the
    input as an object, and each of its declared leaves is a string or is
    left out, the parse succeeds, each leaf left out holds the documented
    default path, each leaf given keeps its string, and so every key the
    schema declares is in the result. *)
Theorem urls_leaf_defaults fields :
  (∀ g leaves, (g, leaves) ∈ schema_table →
     ∃ gf, fields !! g = Some (JsObject gf) ∧
       ∀ k dflt, (k, dflt) ∈ leaves →
         prop gf k = JsUndefined ∨ ∃ s, prop gf k = JsString s) →
  ∃ out, parse urlsSchema (JsObject fields) = Parsed (JsObject out) ∧
    ∀ g leaves, (g, leaves) ∈ schema_table →
      ∃ gf gout, fields !! g = Some (JsObject gf) ∧ out !! g = Some (JsObject gout) ∧
        ∀ k dflt, (k, dflt) ∈ leaves →
          gout !! k = Some (leaf_or_default (prop gf k) dflt).
Proof.
  intros Hgroups. rewrite urlsSchema_table.
  destruct schema_table_keys_distinct as [Hnd Hleafnd].
  apply table_parsed; assumption.
Qed.

(** Splits membership in a list written out in full into its cases. *)
Ltac list_cases H :=
  repeat (apply elem_of_cons in H as [H | H]; [injection H as -> -> |]);
  try (apply elem_of_nil in H as []).

Lemma urls_leaf_defaults_witness :
  ∃ out gout,
    parse urlsSchema (JsObject Samples.sparse_urls) = Parsed (JsObject out) ∧
    out !! "auth" = Some (JsObject gout) ∧
    gout !! "login" = Some (JsString "v2/login") ∧
    gout !! "logout" = Some (JsString "auth/logout").
Proof.
  destruct (urls_leaf_defaults Samples.sparse_urls) as (out & Hparse & Hall).
  { intros g leaves Hin. unfold schema_table in Hin. list_cases Hin.
    all: eexists; split; [reflexivity|].
    all: intros k dflt Hk; list_cases Hk.
    all: first [ left; reflexivity | right; eexists; reflexivity ]. }
  destruct (Hall "auth" [("login", "auth/login"); ("logout", "auth/logout");
                         ("refresh", "auth/refresh")])
    as (gf & gout & Hgf & Hout & Hleaves); [apply list_elem_of_here|].
  vm_compute in Hgf. injection Hgf as <-.
  exists out, gout. split; [assumption|]. split; [assumption|]. split.
  - apply (Hleaves "login" "auth/login"). apply list_elem_of_here.
  - apply (Hleaves "logout" "auth/logout"). apply list_elem_of_further, list_elem_of_here.
Defined.

(** C3 as written fails: with a group left out of the input the parse
    raises, no default is substituted and no mapping results. *)
Lemma urls_group_omitted_rejected :
  (∃ fields, urlsConfig_without "auth" = JsObject fields ∧
     fields !! "auth" = None ∧
     is_Some (fields !! "users") ∧ is_Some (fields !! "template")) ∧
  parse urlsSchema (urlsConfig_without "auth")
    = Invalid [{| code := invalid_type; path := ["auth"] |}] ∧
  parse urlsSchema (JsObject ∅)
    = Invalid [{| code := invalid_type; path := ["auth"] |};
               {| code := invalid_type; path := ["users"] |};
               {| code := invalid_type; path := ["template"] |}].
Proof.
  split; [|split].
  - eexists. split; [reflexivity|]. split; [reflexivity|].
    split; vm_compute; eauto.
  - vm_compute. reflexivity.
  - vm_compute. reflexivity.
Qed.

(** The registry the module exports is the literal it parses. *)
Lemma urls_is_urlsConfig : urls = Parsed urlsConfig.
Proof. vm_compute. reflexivity. Qed.

(* ===================================================================== *)
(** * Properties of the environment loader                                *)
(* ===================================================================== *)

Section EnvLoader.
Variable valid_url : string → bool.

Lemma env_prop (e : gmap string string) (f : string) :
  prop (JsString <$> e) f
    = match e !! f with Some s => JsString s | None => JsUndefined end.
Proof.
  unfold prop. rewrite lookup_fmap. destruct (e !! f); reflexivity.
Qed.

Lemma url_field_parsed p s :
  valid_url s = true →
  string_ [CheckUrl valid_url] p (JsString s) = Parsed (JsString s).
Proof. intros Hok. simpl. rewrite Hok. reflexivity. Qed.

Lemma min1_field_parsed p s :
  s ≠ EmptyString →
  string_ [CheckMin 1] p (JsString s) = Parsed (JsString s).
Proof. intros Hne. destruct s; [congruence | reflexivity]. Qed.

(** A string schema names the path it was reached by in every issue it
    raises for a missing value or for a string it refuses. *)
Lemma url_field_invalid p (o : option string) :
  o = None ∨ (∃ s, o = Some s ∧ valid_url s = false) →
  ∃ i here,
    string_ [CheckUrl valid_url] p
      (match o with Some s => JsString s | None => JsUndefined end) = Invalid here
    ∧ i ∈ here ∧ path i = p.
Proof.
  intros [-> | (s & -> & Hbad)]; simpl; [|rewrite Hbad; simpl];
    eexists _, _; (split; [reflexivity|]); (split; [apply list_elem_of_here|]);
    reflexivity.
Qed.

Lemma min1_field_invalid p (o : option string) :
  o = None ∨ (∃ s, o = Some s ∧ negb (bool_decide (s = EmptyString)) = false) →
  ∃ i here,
    string_ [CheckMin 1] p
      (match o with Some s => JsString s | None => JsUndefined end) = Invalid here
    ∧ i ∈ here ∧ path i = p.
Proof.
  intros [-> | (s & -> & Hbad)].
  - eexists _, _. split; [reflexivity|]. split; [apply list_elem_of_here|]. reflexivity.
  - apply negb_false_iff, bool_decide_eq_true_1 in Hbad as ->.
    eexists _, _. split; [reflexivity|]. split; [apply list_elem_of_here|]. reflexivity.
Qed.

(** C4. When the four required variables are there and well formed,
    the loader returns the object of exactly these four, values
    unchanged; when one of them is missing or malformed the loader
    raises, the error has an issue whose path is that variable, and no
    object is returned. *)
Theorem env_loader file penv :
  let e := Env.loadDotenv file penv in
  (∀ b a l pw,
     e !! "BASE_URL" = Some b → valid_url b = true →
     e !! "API_BASE_URL" = Some a → valid_url a = true →
     e !! "MAIN_USER_LOGIN" = Some l → l ≠ EmptyString →
     e !! "MAIN_USER_PASSWORD" = Some pw → pw ≠ EmptyString →
     Env.env valid_url file penv
       = Parsed (JsObject
           (<["BASE_URL" := JsString b]>
              (<["API_BASE_URL" := JsString a]>
                 (<["MAIN_USER_LOGIN" := JsString l]>
                    (<["MAIN_USER_PASSWORD" := JsString pw]> ∅)))))) ∧
  (∀ f, f ∈ Env.required →
     e !! f = None ∨ (∃ s, e !! f = Some s ∧ Env.field_valid valid_url f s = false) →
     ∃ issues, Env.env valid_url file penv = Invalid issues ∧
       ∃ i, i ∈ issues ∧ path i = [f]).
Proof.
  intros e. split.
  - intros b a l pw Hb Hbok Ha Haok Hl Hlok Hpw Hpwok.
    unfold Env.env, parse, Env.schema, object_, Env.env_object. fold e.
    cbn [parse_shape]. rewrite !env_prop, Hb, Ha, Hl, Hpw.
    rewrite !url_field_parsed, !min1_field_parsed by assumption.
    reflexivity.
  - intros f Hf Hbad.
    assert (Hfield : ∃ t i here, (f, t) ∈
              [("BASE_URL", string_ [CheckUrl valid_url]);
               ("API_BASE_URL", string_ [CheckUrl valid_url]);
               ("MAIN_USER_LOGIN", string_ [CheckMin 1]);
               ("MAIN_USER_PASSWORD", string_ [CheckMin 1])]
            ∧ t ([] ++ [f]) (prop (JsString <$> e) f) = Invalid here
            ∧ i ∈ here ∧ path i = [f]).
    { rewrite env_prop. unfold Env.required in Hf.
      repeat (apply elem_of_cons in Hf as [-> | Hf]);
        [ destruct (url_field_invalid ["BASE_URL"] (e !! "BASE_URL") Hbad)
            as (i & here & H1 & H2 & H3)
        | destruct (url_field_invalid ["API_BASE_URL"] (e !! "API_BASE_URL") Hbad)
            as (i & here & H1 & H2 & H3)
        | destruct (min1_field_invalid ["MAIN_USER_LOGIN"] (e !! "MAIN_USER_LOGIN") Hbad)
            as (i & here & H1 & H2 & H3)
        | destruct (min1_field_invalid ["MAIN_USER_PASSWORD"]
                      (e !! "MAIN_USER_PASSWORD") Hbad)
            as (i & here & H1 & H2 & H3)
        | apply elem_of_nil in Hf as [] ];
        eexists _, i, here; (split; [|split; [exact H1 | split; assumption]]);
        repeat first [ apply list_elem_of_here | apply list_elem_of_further ]. }
    destruct Hfield as (t & i & here & Hin & Hparse & Hi & Hpath).
    pose proof (parse_shape_keeps_issues _ [] _ f t here Hin Hparse i Hi) as Hkept.
    apply object_invalid in Hkept as (issues & Hobj & Hissue).
    exists issues. split; [exact Hobj|]. exists i. auto.
Qed.

End EnvLoader.

Lemma env_loader_witness :
  Env.env Samples.https_url ∅ Samples.full_env
    = Parsed (JsObject
        (<["BASE_URL" := JsString "https://x.test"]>
           (<["API_BASE_URL" := JsString "https://x.test/api"]>
              (<["MAIN_USER_LOGIN" := JsString "u@x.test"]>
                 (<["MAIN_USER_PASSWORD" := JsString "p"]> ∅))))) ∧
  ∃ issues, Env.env Samples.https_url ∅ Samples.partial_env = Invalid issues ∧
    ∃ i, i ∈ issues ∧ path i = ["MAIN_USER_PASSWORD"].
Proof.
  split.
  - apply (proj1 (env_loader Samples.https_url ∅ Samples.full_env));
      first [ discriminate | vm_compute; reflexivity ].
  - apply (proj2 (env_loader Samples.https_url ∅ Samples.partial_env)).
    + unfold Env.required. do 3 apply list_elem_of_further. apply list_elem_of_here.
    + left. vm_compute. reflexivity.
Defined.

(** The file wins over a value the process already had. *)
Lemma loadDotenv_override file penv k v :
  file !! k = Some v → Env.loadDotenv file penv !! k = Some v.
Proof.
  intros Hfile. unfold Env.loadDotenv. apply lookup_union_Some_l. assumption.
Qed.

(* ===================================================================== *)
(** * The request helper, call by call                                    *)
(* ===================================================================== *)

Import Dispatch.

(** The whole of a run: the one call the method selects and the outcome
    its answer gives, or no call at all. *)
Lemma run_dispatch net penv d options :
  run net penv d options =
    match verb_of (method d) with
    | Some v =>
        ([call_for penv d options v],
         finish options (call_config_of d options) (net (call_for penv d options v)))
    | None => ([], Rejected (Error ("Unsupported method: " +:+ method d)))
    end.
Proof.
  unfold verb_of. unfold_send.
  repeat case_bool_decide; unfold finish, call_for, call_config_of; simpl;
    try reflexivity;
    match goal with
    | |- context [net ?c] =>
        destruct (net c) as [r|]; simpl; [destruct (settle _ r)|]; reflexivity
    end.
Qed.

Lemma verb_of_name m v : verb_of m = Some v → verb_name v = m.
Proof.
  unfold verb_of. repeat case_bool_decide; intros [= <-]; subst; reflexivity.
Qed.

Lemma run_calls_inv net penv d options c :
  c ∈ (run net penv d options).1 →
  ∃ v, verb_of (method d) = Some v ∧ c = call_for penv d options v.
Proof.
  rewrite run_dispatch. destruct (verb_of (method d)) as [v|]; simpl; intros Hin.
  - apply list_elem_of_singleton in Hin. eauto.
  - apply elem_of_nil in Hin as [].
Qed.

(** X1. GET and DELETE requests never carry a body, whatever the caller
    put in [body]; POST, PUT and PATCH carry the caller's body, and
    [null] when the caller gave none. *)
Theorem body_by_method net penv d options c :
  c ∈ (run net penv d options).1 →
  (method d = "GET" ∨ method d = "DELETE" → call_data c = None) ∧
  (method d = "POST" ∨ method d = "PUT" ∨ method d = "PATCH" →
     (∀ v, body d = Some v → v ≠ JsUndefined → call_data c = Some v) ∧
     (body d = None ∨ body d = Some JsUndefined → call_data c = Some JsNull)).
Proof.
  intros Hin. apply run_calls_inv in Hin as (v & Hverb & ->). split.
  - intros [H | H]; rewrite H in Hverb; injection Hverb as <-; reflexivity.
  - intros Hm.
    assert (Hcarry : carries_body v = true).
    { destruct Hm as [H | [H | H]]; rewrite H in Hverb; injection Hverb as <-;
        reflexivity. }
    unfold call_for. simpl. rewrite Hcarry. unfold resolve_body. split.
    + intros b -> Hdef. destruct b; try reflexivity. congruence.
    + intros [-> | ->]; reflexivity.
Qed.

Lemma body_by_method_witness :
  (∃ c, (run (Samples.answering 200) ∅ Scenarios.delete_with_body None).1 = [c]
      ∧ call_data c = None) ∧
  (∃ c, (run (Samples.answering 200) ∅ Scenarios.put_without_body None).1 = [c]
      ∧ call_data c = Some JsNull).
Proof.
  split; eexists; (split; [vm_compute; reflexivity|]).
  - refine (proj1 (body_by_method (Samples.answering 200) ∅ Scenarios.delete_with_body
                     None _ _) _).
    + vm_compute. apply list_elem_of_here.
    + right. reflexivity.
  - refine (proj2 (proj2 (body_by_method (Samples.answering 200) ∅
                     Scenarios.put_without_body None _ _) _) _).
    + vm_compute. apply list_elem_of_here.
    + right. left. reflexivity.
    + left. reflexivity.
Defined.

(** X2. A call that raises either was given a method that is not one
    of the five, and then no call into the library was made and the
    error names the method; or it made its one call into the library,
    and then a response, if one was received, has a status of 400 or
    more, [allowBadRequest] is not true, and the error is the library's
    own, carrying that response. So a response below 400, or any
    response under [allowBadRequest], never ends in an error. *)
Theorem rejection_causes net penv d options log e :
  run net penv d options = (log, Rejected e) →
  (¬ recognized (method d) ∧ log = [] ∧
     e = Error ("Unsupported method: " +:+ method d))
  ∨ (recognized (method d) ∧
     ∃ c, log = [c] ∧
       ∀ r, net c = Responded r →
         400 ≤ status r ∧
         allowBadRequest (default empty_options options) ≠ Some true ∧
         e = AxiosError (Some r)).
Proof.
  intros Hrun.
  apply run_inv in Hrun as [(Hrec & c & -> & _ & Hcfg & _ & Hout)|(Hrec & -> & [= ->])];
    [|left; auto].
  right. split; [exact Hrec|]. exists c. split; [reflexivity|].
  intros r Hnet. unfold finish in Hout. rewrite Hcfg, Hnet in Hout.
  destruct (decide (status r < 400)) as [Hlt|Hge].
  - rewrite settle_below_400 in Hout by assumption. discriminate.
  - rewrite settle_from_400 in Hout by lia.
    unfold resolve_allowBadRequest in Hout.
    destruct (allowBadRequest (default empty_options options)) as [[|]|] eqn:Hallow;
      simpl in Hout; try discriminate; injection Hout as ->;
      repeat split; first [ lia | congruence | reflexivity ].
Qed.

Lemma rejection_causes_witness :
  ∃ c, run (Samples.answering 503) ∅ Samples.get_profile
         (Some (Samples.returning "full"))
       = ([c], Rejected (AxiosError (Some (Samples.response_with 503))))
     ∧ 400 ≤ status (Samples.response_with 503)
     ∧ allowBadRequest (Samples.returning "full") ≠ Some true.
Proof.
  destruct (rejection_causes (Samples.answering 503) ∅ Samples.get_profile
              (Some (Samples.returning "full"))
              _ (AxiosError (Some (Samples.response_with 503))) eq_refl)
    as [(Hrec & _) | (_ & c & Hlog & Hres)].
  - exfalso. apply Hrec. apply recognized_cases. left. reflexivity.
  - exists c. split; [rewrite <- Hlog; reflexivity|].
    destruct (Hres (Samples.response_with 503) eq_refl) as (Hge & Hallow & _).
    split; [exact Hge | exact Hallow].
Defined.

Lemma commonHeaders_dom authToken :
  authToken ≠ EmptyString →
  dom (commonHeaders authToken)
    = ({["accept"; "Content-Type"; "Authorization"]} : gset string).
Proof.
  intros Hne. unfold commonHeaders, str_truthy.
  rewrite bool_decide_eq_false_2 by assumption. simpl.
  rewrite !dom_insert_L, dom_empty_L. set_solver.
Qed.

Lemma bearer_never_empty (t : option string) : or_else t "token" ≠ EmptyString.
Proof.
  unfold or_else, str_truthy. destruct t as [s|]; [|discriminate].
  case_bool_decide; simpl; [discriminate | assumption].
Qed.

(** X3. A dispatched request carries the three headers [accept],
    [Content-Type] and [Authorization] and no other, whatever the
    descriptor and the options hold. *)
Theorem exactly_three_headers net penv d options c :
  c ∈ (run net penv d options).1 →
  dom (headers (call_config c))
    = ({["accept"; "Content-Type"; "Authorization"]} : gset string).
Proof.
  intros Hin. apply run_calls_inv in Hin as (v & _ & ->). simpl.
  apply commonHeaders_dom, bearer_never_empty.
Qed.

Lemma exactly_three_headers_witness :
  ∃ c, c ∈ (run (Samples.answering 200) ∅ (Samples.with_token "s3cr3t") None).1
     ∧ headers (call_config c) !! "X-Requested-With" = None.
Proof.
  eexists. split; [vm_compute; apply list_elem_of_here|].
  apply (not_elem_of_dom (D := gset string)).
  rewrite (exactly_three_headers (Samples.answering 200) ∅
             (Samples.with_token "s3cr3t") None _
             ltac:(vm_compute; apply list_elem_of_here)).
  vm_compute. discriminate.
Defined.

(** X4. [returnType] changes nothing but the shape of the value: with
    ['data'], ['both'] and ['full'] the same request is sent; when
    ['both'] returns a response and a payload, that payload is the
    response's and is what ['data'] returns, and that response is what
    ['full'] returns; when one raises, all three raise the same error. *)
Theorem returnType_only_projects net penv d o :
  let run_as rt := run net penv d (Some (with_returnType o (JsString rt))) in
  (run_as "data").1 = (run_as "both").1 ∧
  (run_as "full").1 = (run_as "both").1 ∧
  match (run_as "both").2 with
  | Resolved v =>
      ∃ r, v = RetBoth r (data r) ∧
           (run_as "data").2 = Resolved (RetData (data r)) ∧
           (run_as "full").2 = Resolved (RetFull r)
  | Rejected e =>
      (run_as "data").2 = Rejected e ∧ (run_as "full").2 = Rejected e
  end.
Proof.
  intros run_as. subst run_as. cbv beta. rewrite !run_dispatch.
  destruct (verb_of (method d)) as [v|]; simpl; [|auto].
  split; [reflexivity|]. split; [reflexivity|].
  assert (Hcall : ∀ rt, call_for penv d (Some (with_returnType o rt)) v
                        = call_for penv d (Some o) v) by reflexivity.
  assert (Hcfg : ∀ rt, call_config_of d (Some (with_returnType o rt))
                       = call_config_of d (Some o)) by reflexivity.
  rewrite !Hcall, !Hcfg. unfold finish.
  destruct (net (call_for penv d (Some o) v)) as [r|]; [|auto].
  destruct (settle (call_config_of d (Some o)) r) as [r'|e] eqn:Hsettle; [|auto].
  apply settle_resolved in Hsettle as ->.
  exists r. auto.
Qed.

(** X5. Turning [allowBadRequest] on takes nothing away: against a
    server that answers by what it is sent, a call that returns a value
    returns the same value with [allowBadRequest] set to true. *)
Theorem allowBadRequest_only_adds net penv d o log v :
  wire_only net →
  run net penv d (Some o) = (log, Resolved v) →
  (run net penv d (Some (with_allowBadRequest o (Some true)))).2 = Resolved v.
Proof.
  intros Hwire. rewrite !run_dispatch.
  destruct (verb_of (method d)) as [vb|]; simpl; [|discriminate].
  intros [= <- Hout].
  rewrite (Hwire (call_for penv d (Some (with_allowBadRequest o (Some true))) vb)
                 (call_for penv d (Some o) vb)) by reflexivity.
  unfold finish in *.
  destruct (net (call_for penv d (Some o) vb)) as [r|]; [|discriminate].
  destruct (settle (call_config_of d (Some o)) r) as [r'|] eqn:Hsettle; [|discriminate].
  apply settle_resolved in Hsettle as ->.
  unfold settle, call_config_of. simpl. rewrite orb_true_r. exact Hout.
Qed.

Lemma allowBadRequest_only_adds_witness :
  (run (Samples.answering 201) ∅ Samples.get_profile
       (Some (with_allowBadRequest (Samples.returning "full") (Some true)))).2
  = Resolved (RetFull (Samples.response_with 201)).
Proof.
  eapply (allowBadRequest_only_adds (Samples.answering 201) ∅ Samples.get_profile
            (Samples.returning "full")).
  - intros c c' _. reflexivity.
  - vm_compute. reflexivity.
Defined.

(** X6. Neither the options nor the server's answers reach the request:
    method, URL, body and headers of what is sent are the same for any
    two option records. *)
Theorem options_do_not_reach_the_wire net1 net2 penv d o1 o2 :
  wire <$> (run net1 penv d o1).1 = wire <$> (run net2 penv d o2).1.
Proof.
  rewrite !run_dispatch. destruct (verb_of (method d)); reflexivity.
Qed.

(** X7. A caller who supplies [baseUrl] is independent of the process
    environment: the run is the same under any two environments. *)
Theorem supplied_baseUrl_ignores_environment net penv1 penv2 d options :
  is_Some (baseUrl d) →
  run net penv1 d options = run net penv2 d options.
Proof.
  intros [b Hb]. rewrite !run_dispatch.
  assert (Hcall : ∀ v, call_for penv1 d options v = call_for penv2 d options v).
  { intros v. unfold call_for, resolve_baseUrl. rewrite Hb. reflexivity. }
  destruct (verb_of (method d)) as [v|]; [|reflexivity].
  rewrite Hcall. reflexivity.
Qed.

Lemma supplied_baseUrl_ignores_environment_witness :
  run (Samples.answering 200) ∅ (Samples.with_token "s3cr3t") None
  = run (Samples.answering 200) Samples.process_env (Samples.with_token "s3cr3t") None.
Proof.
  apply (supplied_baseUrl_ignores_environment (Samples.answering 200) ∅
           Samples.process_env (Samples.with_token "s3cr3t") None).
  simpl. eauto.
Defined.

(* ===================================================================== *)
(** * Object schemas, read backwards                                      *)
(* ===================================================================== *)

Section ObjectSchemasInversion.
Import Zod.

(** Every issue of an object comes from one of its keys. *)
Lemma parse_shape_issue_inv shape p fields i :
  i ∈ (parse_shape shape p fields).1 →
  ∃ k t here, (k, t) ∈ shape ∧
    t (p ++ [k]) (prop fields k) = Invalid here ∧ i ∈ here.
Proof.
  induction shape as [|[k0 t0] rest IH]; simpl.
  - intros Hin. apply elem_of_nil in Hin as [].
  - destruct (parse_shape rest p fields) as [issues out]. simpl in IH.
    destruct (t0 (p ++ [k0]) (prop fields k0)) as [v|here] eqn:Ht0; simpl; intros Hin.
    + destruct (IH Hin) as (k & t & here & Hk & Ht & Hi).
      exists k, t, here. split; [right; assumption | auto].
    + apply elem_of_app in Hin as [Hin | Hin].
      * exists k0, t0, here. split; [left | auto].
      * destruct (IH Hin) as (k & t & here' & Hk & Ht & Hi).
        exists k, t, here'. split; [right; assumption | auto].
Qed.

Lemma string_honest checks : honest (string_ checks).
Proof.
  intros p v. unfold string_. destruct v; try discriminate.
  destruct (concat _); discriminate.
Qed.

Lemma default_honest inner d : honest inner → honest (default_ inner d).
Proof.
  intros Hinner p v. unfold default_. destruct (is_undefined v); apply Hinner.
Qed.

Lemma object_honest shape : honest (object_ shape).
Proof.
  intros p v. unfold object_. destruct v; try discriminate.
  destruct (parse_shape shape p fields) as [[|i issues] out]; discriminate.
Qed.

(** Without issues every key has parsed. *)
Lemma parse_shape_clean_inv shape p fields :
  (∀ k t, (k, t) ∈ shape → honest t) →
  (parse_shape shape p fields).1 = [] →
  ∀ k t, (k, t) ∈ shape → ∃ v, t (p ++ [k]) (prop fields k) = Parsed v.
Proof.
  intros Hhonest Hclean k t Hin.
  destruct (t (p ++ [k]) (prop fields k)) as [v|here] eqn:Ht; [eauto|].
  exfalso. destruct here as [|i here].
  - exact (Hhonest k t Hin _ _ Ht).
  - pose proof (parse_shape_keeps_issues shape p fields k t _ Hin Ht i) as Hkept.
    rewrite Hclean in Hkept. eapply elem_of_nil, Hkept. left.
Qed.

(** The keys of the output are the keys of the shape when every key
    parses to a defined value. *)
Lemma parse_shape_dom shape p fields :
  (∀ k t, (k, t) ∈ shape →
     ∃ v, t (p ++ [k]) (prop fields k) = Parsed v ∧ is_undefined v = false) →
  dom (parse_shape shape p fields).2 = (list_to_set shape.*1 : gset string).
Proof.
  induction shape as [|[k0 t0] rest IH]; intros Hall; simpl.
  - apply dom_empty_L.
  - destruct (parse_shape rest p fields) as [issues out] eqn:Hrest. simpl in IH.
    destruct (Hall k0 t0) as (v0 & -> & ->); [left|]. simpl.
    rewrite dom_insert_L, IH; [reflexivity|].
    intros k t Hin. apply Hall. right. assumption.
Qed.

Lemma object_parsed_inv shape p x v :
  object_ shape p x = Parsed v →
  ∃ fields, x = JsObject fields ∧
    (parse_shape shape p fields).1 = [] ∧
    v = JsObject (parse_shape shape p fields).2.
Proof.
  unfold object_. destruct x; try discriminate.
  destruct (parse_shape shape p fields) as [[|i issues] out] eqn:Hshape; [|discriminate].
  intros [= <-]. exists fields. rewrite Hshape. auto.
Qed.

End ObjectSchemasInversion.

Import Zod Urls.

Lemma default_leaf_inv p v dflt v' :
  default_ z_string (JsString dflt) p v = Parsed v' →
  (v = JsUndefined ∨ ∃ s, v = JsString s) ∧ v' = leaf_or_default v dflt.
Proof.
  destruct v; simpl; try discriminate; intros [= <-]; eauto.
Qed.

Lemma leaf_shape_honest leaves k t : (k, t) ∈ leaf_shape leaves → honest t.
Proof.
  intros Hin. apply list_elem_of_fmap in Hin as (kd & [= -> ->] & _).
  apply default_honest, string_honest.
Qed.

Lemma group_shape_honest table g t : (g, t) ∈ group_shape table → honest t.
Proof.
  intros Hin. apply list_elem_of_fmap in Hin as (gl & [= -> ->] & _).
  apply object_honest.
Qed.

(** A group that parses had each leaf missing or a string, and its
    output has the declared leaves and no other. *)
Lemma group_parsed_inv leaves p x v :
  NoDup leaves.*1 →
  object_ (leaf_shape leaves) p x = Parsed v →
  ∃ gf gout, x = JsObject gf ∧ v = JsObject gout ∧
    dom gout = (list_to_set leaves.*1 : gset string) ∧
    ∀ k dflt, (k, dflt) ∈ leaves →
      (prop gf k = JsUndefined ∨ ∃ s, prop gf k = JsString s) ∧
      gout !! k = Some (leaf_or_default (prop gf k) dflt).
Proof.
  intros Hnd Hparse.
  destruct (object_parsed_inv _ _ _ _ Hparse) as (gf & -> & Hclean & ->).
  assert (Hleaves : ∀ k dflt, (k, dflt) ∈ leaves →
            prop gf k = JsUndefined ∨ ∃ s, prop gf k = JsString s).
  { intros k dflt Hin.
    destruct (parse_shape_clean_inv _ _ _ (leaf_shape_honest leaves) Hclean
                k (default_ z_string (JsString dflt))) as (v & Hv).
    { apply list_elem_of_fmap. exists (k, dflt). split; [reflexivity | assumption]. }
    apply default_leaf_inv in Hv as [Hv _]. exact Hv. }
  destruct (group_parsed leaves p gf Hnd Hleaves) as (gout & Hagain & Hout).
  rewrite Hparse in Hagain. injection Hagain as Hagain.
  exists gf, (parse_shape (leaf_shape leaves) p gf).2.
  split; [reflexivity|]. split; [reflexivity|]. split.
  - rewrite parse_shape_dom, leaf_shape_keys; [reflexivity|].
    intros k t Hin. apply list_elem_of_fmap in Hin as ([k' dflt] & [= -> ->] & Hin).
    simpl. rewrite default_leaf_parsed by eauto.
    eexists. split; [reflexivity|].
    destruct (Hleaves _ _ Hin) as [-> | [s ->]]; reflexivity.
  - intros k dflt Hin. split; [eauto|]. rewrite Hagain. eauto.
Qed.

Lemma prop_object_lookup (fields : gmap string JsValue) k o :
  prop fields k = JsObject o → fields !! k = Some (JsObject o).
Proof.
  unfold prop. destruct (fields !! k) as [x|]; simpl; [|discriminate].
  intros ->. reflexivity.
Qed.

(** A mapping that parses had every group as an object with leaves
    missing or strings, and the output has the declared groups and
    leaves and no other. *)
Lemma table_parsed_inv table input v :
  NoDup table.*1 →
  Forall (λ gl, NoDup gl.2.*1) table →
  parse (object_ (group_shape table)) input = Parsed v →
  ∃ fields out, input = JsObject fields ∧ v = JsObject out ∧
    dom out = (list_to_set table.*1 : gset string) ∧
    ∀ g leaves, (g, leaves) ∈ table →
      ∃ gf gout, fields !! g = Some (JsObject gf) ∧ out !! g = Some (JsObject gout) ∧
        dom gout = (list_to_set leaves.*1 : gset string) ∧
        ∀ k dflt, (k, dflt) ∈ leaves →
          (prop gf k = JsUndefined ∨ ∃ s, prop gf k = JsString s) ∧
          gout !! k = Some (leaf_or_default (prop gf k) dflt).
Proof.
  intros Hnd Hleafnd Hparse. rewrite Forall_forall in Hleafnd.
  destruct (object_parsed_inv _ _ _ _ Hparse) as (fields & -> & Hclean & ->).
  assert (Hgroup : ∀ g leaves, (g, leaves) ∈ table →
            ∃ gf gout, fields !! g = Some (JsObject gf) ∧
              object_ (leaf_shape leaves) ([] ++ [g]) (prop fields g)
                = Parsed (JsObject gout) ∧
              dom gout = (list_to_set leaves.*1 : gset string) ∧
              ∀ k dflt, (k, dflt) ∈ leaves →
                (prop gf k = JsUndefined ∨ ∃ s, prop gf k = JsString s) ∧
                gout !! k = Some (leaf_or_default (prop gf k) dflt)).
  { intros g leaves Hin.
    destruct (parse_shape_clean_inv _ _ _ (group_shape_honest table) Hclean
                g (object_ (leaf_shape leaves))) as (vg & Hvg).
    { apply list_elem_of_fmap. exists (g, leaves). split; [reflexivity | assumption]. }
    destruct (group_parsed_inv leaves _ _ _ (Hleafnd _ Hin) Hvg)
      as (gf & gout & Hgf & -> & Hdom & Hleaves).
    exists gf, gout. split; [apply prop_object_lookup; assumption|]. auto. }
  assert (Hall : ∀ g t, (g, t) ∈ group_shape table →
            ∃ vg, t ([] ++ [g]) (prop fields g) = Parsed vg ∧ is_undefined vg = false).
  { intros g t Hin. apply list_elem_of_fmap in Hin as ([g' leaves] & [= -> ->] & Hin).
    destruct (Hgroup _ _ Hin) as (gf & gout & _ & Hg & _).
    exists (JsObject gout). split; [exact Hg | reflexivity]. }
  destruct (parse_shape_all_parsed (group_shape table) [] fields) as (out & Hout & Hlook);
    [rewrite group_shape_keys; assumption | assumption |].
  exists fields, (parse_shape (group_shape table) [] fields).2.
  split; [reflexivity|]. split; [reflexivity|]. split.
  - rewrite parse_shape_dom, group_shape_keys by assumption. reflexivity.
  - intros g leaves Hin.
    destruct (Hgroup _ _ Hin) as (gf & gout & Hgf & Hg & Hdom & Hleaves).
    destruct (Hlook g (object_ (leaf_shape leaves))) as (vg & Hvg & Hlk).
    { apply list_elem_of_fmap. exists (g, leaves). split; [reflexivity | assumption]. }
    rewrite Hg in Hvg. injection Hvg as <-.
    exists gf, gout. rewrite Hout. simpl. auto.
Qed.

(** A map with the keys of a list and its values at them is the map of
    that list. *)
Lemma map_is_list_to_map {A} (m : gmap string A) (l : list (string * A)) :
  NoDup l.*1 →
  dom m = (list_to_set l.*1 : gset string) →
  (∀ k v, (k, v) ∈ l → m !! k = Some v) →
  m = list_to_map l.
Proof.
  intros Hnd Hdom Hlook. apply map_eq. intros k.
  destruct (decide (k ∈ l.*1)) as [Hin|Hout].
  - apply list_elem_of_fmap in Hin as ([k' v] & -> & Hin). simpl.
    rewrite (Hlook _ _ Hin). symmetry. apply elem_of_list_to_map_1; assumption.
  - rewrite (not_elem_of_list_to_map_1 _ _ Hout).
    apply not_elem_of_dom. rewrite Hdom. rewrite elem_of_list_to_set. assumption.
Qed.

Lemma leaf_or_default_str given dflt :
  leaf_or_default given dflt = JsString (leaf_str given dflt).
Proof. destruct given; reflexivity. Qed.

(** Distinct keys of a list written out in full. *)
Ltac distinct_keys :=
  simpl; apply (bool_decide_unpack _); vm_compute; exact I.

(** Membership in a list written out in full. *)
Ltac listed :=
  repeat first [ apply list_elem_of_here | apply list_elem_of_further ].

(** Reduces the projections of a record of paths written out in full. *)
Ltac project_urls :=
  cbn [UrlsConfig.auth UrlsConfig.users UrlsConfig.template
       UrlsConfig.login UrlsConfig.logout UrlsConfig.refresh
       UrlsConfig.profile UrlsConfig.create UrlsConfig.update UrlsConfig.delete
       UrlsConfig.getData UrlsConfig.postData UrlsConfig.updateData
       UrlsConfig.deleteData].

(** The list behind a chain of insertions, and the map lemma at it. *)
Ltac list_of_inserts m :=
  match m with
  | insert ?k ?v ?m' =>
      let l := list_of_inserts m' in constr:((k, v) :: l)
  | _ => constr:(@nil (string * JsValue))
  end.

Ltac by_its_list :=
  match goal with
  | |- ?g = ?m =>
      let l := list_of_inserts m in apply (map_is_list_to_map g l)
  end.

(** Reads one group off what [table_parsed_inv] gives. *)
Ltac group_of Hgroups g gf gout Hgf Hout Hdom Hleaves :=
  match type of Hgroups with
  | ∀ g' leaves, (g', leaves) ∈ ?table → _ =>
      let l := eval vm_compute in (default [] (list_to_map (M := gmap string _) table !! g)) in
      destruct (Hgroups g l) as (gf & gout & Hgf & Hout & Hdom & Hleaves);
      [unfold schema_table; listed|]
  end.

(** A mapping that parses is a typed registry. *)
Lemma urls_parsed_typed input v :
  parse urlsSchema input = Parsed v → ∃ u, v = UrlsConfig.to_js u.
Proof.
  rewrite urlsSchema_table. intros Hparse.
  destruct schema_table_keys_distinct as [Hnd Hleafnd].
  destruct (table_parsed_inv schema_table input v Hnd Hleafnd Hparse)
    as (fields & out & -> & -> & Hdom & Hgroups).
  group_of Hgroups "auth" gfa gouta Hfa Houta Hdoma Hla.
  group_of Hgroups "users" gfu goutu Hfu Houtu Hdomu Hlu.
  group_of Hgroups "template" gft goutt Hft Houtt Hdomt Hlt.
  exists {| UrlsConfig.auth :=
              {| UrlsConfig.login := leaf_str (prop gfa "login") "auth/login";
                 UrlsConfig.logout := leaf_str (prop gfa "logout") "auth/logout";
                 UrlsConfig.refresh := leaf_str (prop gfa "refresh") "auth/refresh" |};
            UrlsConfig.users :=
              {| UrlsConfig.profile := leaf_str (prop gfu "profile") "users/profile";
                 UrlsConfig.create := leaf_str (prop gfu "create") "users";
                 UrlsConfig.update := leaf_str (prop gfu "update") "users";
                 UrlsConfig.delete := leaf_str (prop gfu "delete") "users" |};
            UrlsConfig.template :=
              {| UrlsConfig.getData := leaf_str (prop gft "getData") "template/data";
                 UrlsConfig.postData := leaf_str (prop gft "postData") "template/data";
                 UrlsConfig.updateData := leaf_str (prop gft "updateData") "template/data";
                 UrlsConfig.deleteData := leaf_str (prop gft "deleteData") "template/data"
              |} |}.
  unfold UrlsConfig.to_js, obj. project_urls. f_equal.
  apply map_is_list_to_map; [distinct_keys | exact Hdom |].
  intros g vg Hin. list_cases Hin.
  - rewrite Houta. do 2 f_equal.
    by_its_list; [distinct_keys | exact Hdoma |].
    intros k vk Hk. list_cases Hk.
    all: rewrite <- leaf_or_default_str; apply Hla; listed.
  - rewrite Houtu. do 2 f_equal.
    by_its_list; [distinct_keys | exact Hdomu |].
    intros k vk Hk. list_cases Hk.
    all: rewrite <- leaf_or_default_str; apply Hlu; listed.
  - rewrite Houtt. do 2 f_equal.
    by_its_list; [distinct_keys | exact Hdomt |].
    intros k vk Hk. list_cases Hk.
    all: rewrite <- leaf_or_default_str; apply Hlt; listed.
Qed.

(** X8. Whatever the registry parse returns is a value of the declared
    type and nothing more: the three groups, each with its declared
    leaves, each leaf a string, unknown groups and leaves dropped. And
    an input is only accepted when it is an object whose three groups
    are objects whose declared leaves are strings or missing. *)
Theorem urls_parse_sound input v :
  parse urlsSchema input = Parsed v →
  ∃ fields u, input = JsObject fields ∧ v = UrlsConfig.to_js u ∧
    ∀ g leaves, (g, leaves) ∈ schema_table →
      ∃ gf, fields !! g = Some (JsObject gf) ∧
        ∀ k dflt, (k, dflt) ∈ leaves →
          prop gf k = JsUndefined ∨ ∃ s, prop gf k = JsString s.
Proof.
  intros Hparse.
  destruct (urls_parsed_typed input v Hparse) as [u Hu].
  rewrite urlsSchema_table in Hparse.
  destruct schema_table_keys_distinct as [Hnd Hleafnd].
  destruct (table_parsed_inv schema_table input v Hnd Hleafnd Hparse)
    as (fields & out & -> & _ & _ & Hgroups).
  exists fields, u. split; [reflexivity|]. split; [exact Hu|].
  intros g leaves Hin.
  destruct (Hgroups g leaves Hin) as (gf & gout & Hgf & _ & _ & Hl).
  exists gf. split; [assumption|].
  intros k dflt Hk. exact (proj1 (Hl k dflt Hk)).
Qed.

Lemma urls_parse_sound_witness :
  ∃ v u, parse urlsSchema (JsObject Samples.sparse_urls) = Parsed v
       ∧ v = UrlsConfig.to_js u
       ∧ UrlsConfig.login (UrlsConfig.auth u) = "v2/login"
       ∧ UrlsConfig.delete (UrlsConfig.users u) = "users".
Proof.
  destruct (urls_parse_sound (JsObject Samples.sparse_urls) _ eq_refl)
    as (fields & u & _ & Hv & _).
  eexists _, u. split; [reflexivity|]. split; [exact Hv|].
  apply (f_equal UrlsConfig.of_js) in Hv.
  destruct u as [[a1 a2 a3] [u1 u2 u3 u4] [t1 t2 t3 t4]].
  vm_compute in Hv. injection Hv as <- <- <- <- <- <- <- <- <- <- <-.
  split; reflexivity.
Defined.

(** A typed registry parses to itself. *)
Lemma parse_typed_registry u :
  parse urlsSchema (UrlsConfig.to_js u) = Parsed (UrlsConfig.to_js u).
Proof.
  destruct u as [[a1 a2 a3] [u1 u2 u3 u4] [t1 t2 t3 t4]].
  vm_compute. reflexivity.
Qed.

(** X9. Validation is idempotent: a registry that came out of the parse
    goes through it unchanged. *)
Theorem urls_parse_idempotent input v :
  parse urlsSchema input = Parsed v → parse urlsSchema v = Parsed v.
Proof.
  intros Hparse.
  destruct (urls_parsed_typed input v Hparse) as [u ->].
  apply parse_typed_registry.
Qed.

Lemma urls_parse_idempotent_witness :
  ∃ v, parse urlsSchema (JsObject Samples.sparse_urls) = Parsed v
     ∧ parse urlsSchema v = Parsed v.
Proof.
  eexists. split; [vm_compute; reflexivity|].
  apply (urls_parse_idempotent (JsObject Samples.sparse_urls)).
  vm_compute. reflexivity.
Defined.

Lemma not_object_invalid shape p x :
  (∀ o, x ≠ JsObject o) →
  object_ shape p x = Invalid [{| code := invalid_type; path := p |}].
Proof.
  intros Hno. destruct x; try reflexivity. exfalso. exact (Hno _ eq_refl).
Qed.

Lemma default_leaf_invalid p x dflt :
  x ≠ JsUndefined → (∀ s, x ≠ JsString s) →
  default_ z_string (JsString dflt) p x
    = Invalid [{| code := invalid_type; path := p |}].
Proof.
  intros Hdef Hstr. destruct x; try reflexivity.
  - congruence.
  - exfalso. exact (Hstr _ eq_refl).
Qed.

(** X10. The registry parse reports a fault at the path of the value at
    fault: an input that is no object at the empty path; a group that is
    missing or no object at the group; a leaf that is there but no
    string ([null] and numbers included: the default only replaces a
    missing leaf) at the group and the leaf. *)
Theorem urls_issue_paths :
  (∀ x, (∀ o, x ≠ JsObject o) →
     parse urlsSchema x = Invalid [{| code := invalid_type; path := [] |}]) ∧
  (∀ fields g leaves, (g, leaves) ∈ schema_table →
     (∀ o, prop fields g ≠ JsObject o) →
     ∃ issues, parse urlsSchema (JsObject fields) = Invalid issues ∧
       {| code := invalid_type; path := [g] |} ∈ issues) ∧
  (∀ fields g leaves gf k dflt, (g, leaves) ∈ schema_table → (k, dflt) ∈ leaves →
     fields !! g = Some (JsObject gf) →
     prop gf k ≠ JsUndefined → (∀ s, prop gf k ≠ JsString s) →
     ∃ issues, parse urlsSchema (JsObject fields) = Invalid issues ∧
       {| code := invalid_type; path := [g; k] |} ∈ issues).
Proof.
  rewrite urlsSchema_table. split; [|split].
  - intros x Hno. apply not_object_invalid. assumption.
  - intros fields g leaves Hin Hno. apply object_invalid.
    apply (parse_shape_keeps_issues _ [] fields g (object_ (leaf_shape leaves))
             [{| code := invalid_type; path := [g] |}]).
    + apply list_elem_of_fmap. exists (g, leaves). split; [reflexivity | assumption].
    + apply not_object_invalid. assumption.
    + apply list_elem_of_here.
  - intros fields g leaves gf k dflt Hin Hk Hgf Hdef Hstr. apply object_invalid.
    destruct (object_invalid (leaf_shape leaves) [g] gf
                {| code := invalid_type; path := [g; k] |}) as (here & Hhere & Hi).
    { apply (parse_shape_keeps_issues _ [g] gf k (default_ z_string (JsString dflt))
               [{| code := invalid_type; path := [g; k] |}]).
      - apply list_elem_of_fmap. exists (k, dflt). split; [reflexivity | assumption].
      - apply (default_leaf_invalid ([g] ++ [k])); assumption.
      - apply list_elem_of_here. }
    apply (parse_shape_keeps_issues _ [] fields g (object_ (leaf_shape leaves)) here).
    + apply list_elem_of_fmap. exists (g, leaves). split; [reflexivity | assumption].
    + unfold prop. rewrite Hgf. exact Hhere.
    + exact Hi.
Qed.

Lemma urls_issue_paths_witness :
  ∃ issues, parse urlsSchema (JsObject Scenarios.urls_with_number) = Invalid issues ∧
    {| code := invalid_type; path := ["auth"; "login"] |} ∈ issues.
Proof.
  refine (proj2 (proj2 urls_issue_paths) Scenarios.urls_with_number "auth" _
            (<["login" := JsNumber 7]> ∅) "login" "auth/login" _ _ _ _ _).
  - unfold schema_table. apply list_elem_of_here.
  - apply list_elem_of_here.
  - reflexivity.
  - vm_compute. discriminate.
  - intros s. vm_compute. discriminate.
Defined.

(* ===================================================================== *)
(** * The environment loader, read backwards                              *)
(* ===================================================================== *)

Section EnvLoaderInversion.
Variable valid_url : string → bool.

Lemma url_field_parsed_inv p o v :
  string_ [CheckUrl valid_url] p (from_env o) = Parsed v →
  ∃ s, o = Some s ∧ valid_url s = true.
Proof.
  destruct o as [s|]; simpl; [|discriminate].
  destruct (valid_url s) eqn:Hok; [eauto | discriminate].
Qed.

Lemma min1_field_parsed_inv p o v :
  string_ [CheckMin 1] p (from_env o) = Parsed v →
  ∃ s, o = Some s ∧ s ≠ EmptyString.
Proof.
  destruct o as [[|a s]|]; simpl; try discriminate.
  intros _. eexists. split; [reflexivity | discriminate].
Qed.

Lemma url_field_invalid_inv p o here i :
  string_ [CheckUrl valid_url] p (from_env o) = Invalid here → i ∈ here →
  path i = p ∧ (o = None ∨ ∃ s, o = Some s ∧ valid_url s = false).
Proof.
  destruct o as [s|]; simpl.
  - destruct (valid_url s) eqn:Hbad; [discriminate|]. simpl.
    intros [= <-] Hi. apply list_elem_of_singleton in Hi as ->. eauto.
  - intros [= <-] Hi. apply list_elem_of_singleton in Hi as ->. eauto.
Qed.

Lemma min1_field_invalid_inv p o here i :
  string_ [CheckMin 1] p (from_env o) = Invalid here → i ∈ here →
  path i = p ∧ (o = None ∨ o = Some EmptyString).
Proof.
  destruct o as [[|a s]|]; simpl; try discriminate;
    intros [= <-] Hi; apply list_elem_of_singleton in Hi as ->; eauto.
Qed.

End EnvLoaderInversion.

Section EnvLoaderResults.
Variable valid_url : string → bool.

Lemma env_unfold file penv :
  let e := Env.loadDotenv file penv in
  Env.env valid_url file penv
    = object_
        [("BASE_URL", string_ [CheckUrl valid_url]);
         ("API_BASE_URL", string_ [CheckUrl valid_url]);
         ("MAIN_USER_LOGIN", string_ [CheckMin 1]);
         ("MAIN_USER_PASSWORD", string_ [CheckMin 1])]
        [] (JsObject (JsString <$> e)).
Proof. reflexivity. Qed.

Lemma env_prop_from (e : gmap string string) f :
  prop (JsString <$> e) f = from_env (e !! f).
Proof. apply env_prop. Qed.

Lemma env_shape_honest k t :
  (k, t) ∈ [("BASE_URL", string_ [CheckUrl valid_url]);
            ("API_BASE_URL", string_ [CheckUrl valid_url]);
            ("MAIN_USER_LOGIN", string_ [CheckMin 1]);
            ("MAIN_USER_PASSWORD", string_ [CheckMin 1])] →
  honest t.
Proof.
  intros Hin. list_cases Hin; apply string_honest.
Qed.

(** Four well-formed variables load as the typed configuration. *)
Lemma env_valid_parsed file penv c :
  let e := Env.loadDotenv file penv in
  e !! "BASE_URL" = Some (EnvConfig.BASE_URL c) →
  valid_url (EnvConfig.BASE_URL c) = true →
  e !! "API_BASE_URL" = Some (EnvConfig.API_BASE_URL c) →
  valid_url (EnvConfig.API_BASE_URL c) = true →
  e !! "MAIN_USER_LOGIN" = Some (EnvConfig.MAIN_USER_LOGIN c) →
  EnvConfig.MAIN_USER_LOGIN c ≠ EmptyString →
  e !! "MAIN_USER_PASSWORD" = Some (EnvConfig.MAIN_USER_PASSWORD c) →
  EnvConfig.MAIN_USER_PASSWORD c ≠ EmptyString →
  Env.env valid_url file penv = Parsed (EnvConfig.to_js c).
Proof.
  intros e Hb Hbok Ha Haok Hl Hlok Hpw Hpwok.
  rewrite env_unfold. fold e. unfold object_.
  cbn [parse_shape]. rewrite !env_prop, Hb, Ha, Hl, Hpw.
  rewrite !url_field_parsed, !min1_field_parsed by assumption.
  reflexivity.
Qed.

(** A configuration that loaded came from four well-formed variables. *)
Lemma env_parsed_inv file penv v :
  let e := Env.loadDotenv file penv in
  Env.env valid_url file penv = Parsed v →
  ∃ c, v = EnvConfig.to_js c ∧
    e !! "BASE_URL" = Some (EnvConfig.BASE_URL c) ∧
    valid_url (EnvConfig.BASE_URL c) = true ∧
    e !! "API_BASE_URL" = Some (EnvConfig.API_BASE_URL c) ∧
    valid_url (EnvConfig.API_BASE_URL c) = true ∧
    e !! "MAIN_USER_LOGIN" = Some (EnvConfig.MAIN_USER_LOGIN c) ∧
    EnvConfig.MAIN_USER_LOGIN c ≠ EmptyString ∧
    e !! "MAIN_USER_PASSWORD" = Some (EnvConfig.MAIN_USER_PASSWORD c) ∧
    EnvConfig.MAIN_USER_PASSWORD c ≠ EmptyString.
Proof.
  intros e Henv. pose proof Henv as Hparse. rewrite env_unfold in Hparse. fold e in Hparse.
  apply object_parsed_inv in Hparse as (fields & [= <-] & Hclean & _).
  pose proof (parse_shape_clean_inv _ _ _ env_shape_honest Hclean) as Hall.
  destruct (Hall "BASE_URL" (string_ [CheckUrl valid_url])) as (v1 & H1); [listed|].
  destruct (Hall "API_BASE_URL" (string_ [CheckUrl valid_url])) as (v2 & H2); [listed|].
  destruct (Hall "MAIN_USER_LOGIN" (string_ [CheckMin 1])) as (v3 & H3); [listed|].
  destruct (Hall "MAIN_USER_PASSWORD" (string_ [CheckMin 1])) as (v4 & H4); [listed|].
  rewrite env_prop_from in H1, H2, H3, H4.
  apply url_field_parsed_inv in H1 as (b & Hb & Hbok).
  apply url_field_parsed_inv in H2 as (a & Ha & Haok).
  apply min1_field_parsed_inv in H3 as (l & Hl & Hlok).
  apply min1_field_parsed_inv in H4 as (pw & Hpw & Hpwok).
  exists {| EnvConfig.BASE_URL := b; EnvConfig.API_BASE_URL := a;
            EnvConfig.MAIN_USER_LOGIN := l; EnvConfig.MAIN_USER_PASSWORD := pw |}.
  simpl. split; [|auto 10].
  pose proof (env_valid_parsed file penv
                {| EnvConfig.BASE_URL := b; EnvConfig.API_BASE_URL := a;
                   EnvConfig.MAIN_USER_LOGIN := l; EnvConfig.MAIN_USER_PASSWORD := pw |}
                Hb Hbok Ha Haok Hl Hlok Hpw Hpwok) as Hfwd.
  rewrite Henv in Hfwd. injection Hfwd as ->. reflexivity.
Qed.

(** The schema looks at four properties of the object it is given. *)
Lemma schema_ext (e1 e2 : gmap string string) :
  e1 !! "BASE_URL" = e2 !! "BASE_URL" →
  e1 !! "API_BASE_URL" = e2 !! "API_BASE_URL" →
  e1 !! "MAIN_USER_LOGIN" = e2 !! "MAIN_USER_LOGIN" →
  e1 !! "MAIN_USER_PASSWORD" = e2 !! "MAIN_USER_PASSWORD" →
  parse (Env.schema valid_url) (Env.env_object e1)
  = parse (Env.schema valid_url) (Env.env_object e2).
Proof.
  intros Hb Ha Hl Hpw. unfold parse, Env.schema, Env.env_object, object_.
  cbn [parse_shape]. rewrite !env_prop_from, !lookup_fmap.
  rewrite Hb, Ha, Hl, Hpw. reflexivity.
Qed.

(** X11. The loader reads four variables and no other: two environments
    that agree on them load to the same configuration or fail with the
    same issues. *)
Theorem env_reads_only_required file1 penv1 file2 penv2 :
  (∀ f, f ∈ Env.required →
     Env.loadDotenv file1 penv1 !! f = Env.loadDotenv file2 penv2 !! f) →
  Env.env valid_url file1 penv1 = Env.env valid_url file2 penv2.
Proof.
  intros Hsame. unfold Env.env.
  apply schema_ext; apply Hsame; unfold Env.required; listed.
Qed.

(** X12. A [.env] file that sets the four variables decides the result:
    what the process environment held before plays no part. *)
Theorem dotenv_file_wins file penv1 penv2 :
  (∀ f, f ∈ Env.required → is_Some (file !! f)) →
  Env.env valid_url file penv1 = Env.env valid_url file penv2.
Proof.
  intros Hfile.
  assert (Hsame : ∀ f, f ∈ Env.required →
            Env.loadDotenv file penv1 !! f = Env.loadDotenv file penv2 !! f).
  { intros f Hf. destruct (Hfile f Hf) as [s Hs]. unfold Env.loadDotenv.
    rewrite !(lookup_union_Some_l _ _ _ _ Hs). reflexivity. }
  unfold Env.env.
  apply schema_ext; apply Hsame; unfold Env.required; listed.
Qed.

(** X13. A failed load reports nothing but real faults: every issue is
    at one of the four variables, and that variable is missing or
    malformed. *)
Theorem env_issues_are_faults file penv issues i :
  let e := Env.loadDotenv file penv in
  Env.env valid_url file penv = Invalid issues →
  i ∈ issues →
  ∃ f, f ∈ Env.required ∧ path i = [f] ∧
    (e !! f = None ∨ ∃ s, e !! f = Some s ∧ Env.field_valid valid_url f s = false).
Proof.
  intros e Henv Hi. rewrite env_unfold in Henv. fold e in Henv.
  unfold object_ in Henv.
  match type of Henv with
  | context [parse_shape ?shape ?p ?fields] =>
      pose proof (parse_shape_issue_inv shape p fields i) as Hinv;
      destruct (parse_shape shape p fields) as [[|i0 rest] out]; [discriminate|]
  end.
  injection Henv as <-. simpl in Hinv.
  destruct (Hinv Hi) as (k & t & here & Hk & Ht & Hhere).
  rewrite env_prop_from in Ht.
  list_cases Hk.
  - apply url_field_invalid_inv with (i := i) in Ht as [Hp Hbad]; [|assumption].
    exists "BASE_URL". split; [unfold Env.required; listed|]. split; assumption.
  - apply url_field_invalid_inv with (i := i) in Ht as [Hp Hbad]; [|assumption].
    exists "API_BASE_URL". split; [unfold Env.required; listed|]. split; assumption.
  - apply min1_field_invalid_inv with (i := i) in Ht as [Hp Hbad]; [|assumption].
    exists "MAIN_USER_LOGIN". split; [unfold Env.required; listed|].
    split; [assumption|]. destruct Hbad as [Hbad | Hbad]; eauto.
  - apply min1_field_invalid_inv with (i := i) in Ht as [Hp Hbad]; [|assumption].
    exists "MAIN_USER_PASSWORD". split; [unfold Env.required; listed|].
    split; [assumption|]. destruct Hbad as [Hbad | Hbad]; eauto.
Qed.

End EnvLoaderResults.

Lemma env_reads_only_required_witness :
  Env.env Samples.https_url ∅ Samples.full_env
  = Env.env Samples.https_url ∅ (base.delete "HOME" Samples.full_env).
Proof.
  apply (env_reads_only_required Samples.https_url ∅ Samples.full_env
           ∅ (base.delete "HOME" Samples.full_env)).
  intros f Hf. unfold Env.required in Hf.
  repeat (apply elem_of_cons in Hf as [-> | Hf]; [vm_compute; reflexivity|]).
  apply elem_of_nil in Hf as [].
Defined.

Lemma dotenv_file_wins_witness :
  Env.env Samples.https_url Samples.full_env ∅
  = Env.env Samples.https_url Samples.full_env (<["BASE_URL" := "not a url"]> ∅).
Proof.
  apply (dotenv_file_wins Samples.https_url Samples.full_env ∅
           (<["BASE_URL" := "not a url"]> ∅)).
  intros f Hf. unfold Env.required in Hf.
  repeat (apply elem_of_cons in Hf as [-> | Hf]; [vm_compute; eauto|]).
  apply elem_of_nil in Hf as [].
Defined.

Lemma env_issues_are_faults_witness :
  ∃ f, f ∈ Env.required ∧ [f] = ["MAIN_USER_PASSWORD"] ∧
    (Env.loadDotenv ∅ Samples.partial_env !! f = None ∨
     ∃ s, Env.loadDotenv ∅ Samples.partial_env !! f = Some s ∧
          Env.field_valid Samples.https_url f s = false).
Proof.
  destruct (env_issues_are_faults Samples.https_url ∅ Samples.partial_env
              [{| code := invalid_type; path := ["MAIN_USER_PASSWORD"] |}]
              {| code := invalid_type; path := ["MAIN_USER_PASSWORD"] |})
    as (f & Hf & Hpath & Hbad).
  - vm_compute. reflexivity.
  - apply list_elem_of_here.
  - exists f. split; [exact Hf|]. split; [symmetry; exact Hpath | exact Hbad].
Defined.

(* ===================================================================== *)
(** * Module evaluation                                                   *)
(* ===================================================================== *)

Lemma urls_typed : UrlsConfig.of_js urlsConfig = Some registry.
Proof. vm_compute. reflexivity. Qed.

Lemma env_of_js_to_js c : EnvConfig.of_js (EnvConfig.to_js c) = Some c.
Proof. destruct c. vm_compute. reflexivity. Qed.

(** X14. Importing the client modules succeeds exactly on a well-formed
    environment. What it leaves behind is then the registry of the
    literal, the four variables as the merged environment holds them,
    each of them well formed, and the merged environment as
    [process.env]; a failed import carries the issues of the environment
    schema, at least one. *)
Theorem import_all_result valid_url file penv :
  let e := Env.loadDotenv file penv in
  match Imports.import_all valid_url file penv with
  | Imports.Imported m =>
      Imports.urls m = registry ∧
      Imports.process_env m = e ∧
      Env.env valid_url file penv = Parsed (EnvConfig.to_js (Imports.env m)) ∧
      e !! "BASE_URL" = Some (EnvConfig.BASE_URL (Imports.env m)) ∧
      valid_url (EnvConfig.BASE_URL (Imports.env m)) = true ∧
      e !! "API_BASE_URL" = Some (EnvConfig.API_BASE_URL (Imports.env m)) ∧
      valid_url (EnvConfig.API_BASE_URL (Imports.env m)) = true ∧
      e !! "MAIN_USER_LOGIN" = Some (EnvConfig.MAIN_USER_LOGIN (Imports.env m)) ∧
      EnvConfig.MAIN_USER_LOGIN (Imports.env m) ≠ EmptyString ∧
      e !! "MAIN_USER_PASSWORD" = Some (EnvConfig.MAIN_USER_PASSWORD (Imports.env m)) ∧
      EnvConfig.MAIN_USER_PASSWORD (Imports.env m) ≠ EmptyString
  | Imports.ImportFailed issues =>
      Env.env valid_url file penv = Invalid issues ∧ issues ≠ []
  end.
Proof.
  intros e. unfold Imports.import_all.
  rewrite urls_is_urlsConfig, urls_typed.
  destruct (Env.env valid_url file penv) as [v|issues] eqn:Henv.
  - destruct (env_parsed_inv valid_url file penv v Henv) as (c & -> & Hc).
    rewrite env_of_js_to_js. simpl. fold e in Hc. auto 15.
  - split; [reflexivity|]. intros ->.
    rewrite env_unfold in Henv. exact (object_honest _ _ _ Henv).
Qed.

(** X15. Once the environment module has loaded, the built-in address
    is out of reach: under the environment it leaves behind, a request
    without [baseUrl] goes to the validated [API_BASE_URL]. The URL
    parser rejects the empty string. *)
Theorem validated_env_is_the_base valid_url file penv v net d options c :
  valid_url EmptyString = false →
  Env.env valid_url file penv = Parsed v →
  baseUrl d = None →
  c ∈ (run net (Env.loadDotenv file penv) d options).1 →
  ∃ a, Env.loadDotenv file penv !! "API_BASE_URL" = Some a ∧
       valid_url a = true ∧
       call_url c = a +:+ "/" +:+ endpoint d.
Proof.
  intros Hempty Henv Hbase Hin.
  destruct (env_parsed_inv valid_url file penv v Henv)
    as (cfg & _ & _ & _ & Ha & Haok & _).
  exists (EnvConfig.API_BASE_URL cfg). split; [exact Ha|]. split; [exact Haok|].
  apply run_calls_inv in Hin as (vb & _ & ->).
  unfold call_for, resolve_baseUrl. simpl. rewrite Hbase, Ha. simpl.
  unfold str_truthy. rewrite bool_decide_eq_false_2; [reflexivity|].
  intros Heq. rewrite Heq in Haok. congruence.
Qed.

Lemma validated_env_is_the_base_witness :
  ∃ c, (run (Samples.answering 200) (Env.loadDotenv ∅ Samples.full_env)
          Samples.get_profile None).1 = [c]
     ∧ call_url c = "https://x.test/api/users/profile/123".
Proof.
  eexists. split; [vm_compute; reflexivity|].
  match goal with
  | |- call_url ?c = _ =>
      destruct (validated_env_is_the_base Samples.https_url ∅ Samples.full_env
                  (EnvConfig.to_js (Imports.env Scenarios.loaded))
                  (Samples.answering 200) Samples.get_profile None c)
        as (a & Ha & _ & Hurl);
        [ reflexivity | vm_compute; reflexivity | reflexivity
        | vm_compute; apply list_elem_of_here | ]
  end.
  vm_compute in Ha. injection Ha as <-. exact Hurl.
Defined.

(* ===================================================================== *)
(** * The API client and its fixtures                                     *)
(* ===================================================================== *)

Import TemplateAPIClient.

(** A request started on a log adds its calls to that log. *)
Lemma send_from_log net penv d options log :
  sendCommonApiRequest penv d options net log
  = (log ++ (run net penv d options).1, (run net penv d options).2).
Proof.
  unfold_send.
  repeat case_bool_decide; simpl; rewrite ?app_nil_r; try reflexivity;
    match goal with
    | |- context [net ?c] =>
        destruct (net c) as [r|]; simpl; [destruct (settle _ r)|]; reflexivity
    end.
Qed.

(** The outcome of a call made without options. *)
Lemma finish_default d (c : AxiosCall) (net : Network) :
  finish None (call_config_of d None) (net c)
  = match net c with
    | Responded r =>
        if bool_decide (status r < 400)
        then Resolved (RetData (data r))
        else Rejected (AxiosError (Some r))
    | NetworkError => Rejected (AxiosError None)
    end.
Proof.
  unfold finish. destruct (net c) as [r|]; [|reflexivity].
  case_bool_decide.
  - rewrite settle_below_400 by assumption. reflexivity.
  - rewrite settle_from_400 by lia. reflexivity.
Qed.

Lemma login_exec net m this creds :
  ∃ c, (exec net (login m this creds)).1 = [c] ∧
    call_verb c = VPost ∧
    call_url c = EnvConfig.API_BASE_URL (Imports.env m) +:+ "/" +:+
                 UrlsConfig.login (UrlsConfig.auth (urls this)) ∧
    call_data c = Some (credentials_js creds) ∧
    headers (call_config c) !! "Authorization" = Some "Bearer token".
Proof.
  unfold exec, login.
  change (sendCommonApiRequest ?p ?d ?o net []) with (run net p d o).
  rewrite run_dispatch. simpl.
  eexists. split; [reflexivity|]. repeat split.
Qed.

(** X16. Each method of the client is one request with a fixed method
    and endpoint under the validated API base: [getData] a GET of the
    [template.getData] path without body, [postData] a POST of the
    caller's data to [template.postData], [login] a POST of the
    credentials to [auth.login] that always carries the placeholder
    bearer. The bearer of the other two is the caller's token or the
    placeholder. *)
Theorem client_requests net m this :
  let base := EnvConfig.API_BASE_URL (Imports.env m) in
  (∀ tk, ∃ c, (exec net (getData m this tk)).1 = [c] ∧
     call_verb c = VGet ∧
     call_url c = base +:+ "/" +:+ UrlsConfig.getData (UrlsConfig.template (urls this)) ∧
     call_data c = None ∧
     headers (call_config c) !! "Authorization"
       = Some ("Bearer " +:+ or_else tk "token")) ∧
  (∀ payload tk, payload ≠ JsUndefined →
     ∃ c, (exec net (postData m this payload tk)).1 = [c] ∧
     call_verb c = VPost ∧
     call_url c = base +:+ "/" +:+ UrlsConfig.postData (UrlsConfig.template (urls this)) ∧
     call_data c = Some payload ∧
     headers (call_config c) !! "Authorization"
       = Some ("Bearer " +:+ or_else tk "token")) ∧
  (∀ creds, ∃ c, (exec net (login m this creds)).1 = [c] ∧
     call_verb c = VPost ∧
     call_url c = base +:+ "/" +:+ UrlsConfig.login (UrlsConfig.auth (urls this)) ∧
     call_data c = Some (credentials_js creds) ∧
     headers (call_config c) !! "Authorization" = Some "Bearer token").
Proof.
  intros base. split; [|split].
  - intros tk. unfold exec, getData. change (sendCommonApiRequest ?p ?d ?o net [])
      with (run net p d o). rewrite run_dispatch. simpl.
    eexists. split; [reflexivity|]. repeat split.
    apply commonHeaders_authorization, bearer_never_empty.
  - intros payload tk Hdef. unfold exec, postData.
    change (sendCommonApiRequest ?p ?d ?o net []) with (run net p d o).
    rewrite run_dispatch. simpl.
    eexists. split; [reflexivity|]. repeat split.
    + unfold call_for, resolve_body. simpl. destruct payload; try reflexivity. congruence.
    + apply commonHeaders_authorization, bearer_never_empty.
  - intros creds. apply login_exec.
Qed.

(** X17. Whatever method of the client is called, exactly one request
    is sent and the outcome is read off its answer alone: the payload,
    and the payload only, for a status below 400; the library's error
    with the response for 400 and above, without a way to ask for the
    response instead; the library's error when there is no response.
    The unsupported-method error cannot occur. *)
Theorem client_outcomes net m this op :
  ∃ c, (exec net (perform m this op)).1 = [c] ∧
    (exec net (perform m this op)).2
    = match net c with
      | Responded r =>
          if bool_decide (status r < 400)
          then Resolved (RetData (data r))
          else Rejected (AxiosError (Some r))
      | NetworkError => Rejected (AxiosError None)
      end.
Proof.
  destruct op as [tk | payload tk | creds]; unfold exec, perform;
    [unfold getData | unfold postData | unfold login];
    change (sendCommonApiRequest ?p ?d ?o net []) with (run net p d o);
    rewrite run_dispatch; simpl;
    (eexists; split; [reflexivity|]); apply finish_default.
Qed.

Lemma client_requests_witness :
  ∃ c, (exec (Samples.answering 200)
          (postData Scenarios.loaded (new Scenarios.loaded) Samples.payload
             (Some "s3cr3t"))).1 = [c]
     ∧ call_url c = "https://x.test/api/template/data"
     ∧ call_data c = Some Samples.payload.
Proof.
  destruct (proj1 (proj2 (client_requests (Samples.answering 200) Scenarios.loaded
                            (new Scenarios.loaded)))
              Samples.payload (Some "s3cr3t"))
    as (c & Hlog & _ & Hurl & Hdata & _); [discriminate|].
  exists c. split; [exact Hlog|]. split; [exact Hurl | exact Hdata].
Defined.

Import Fixtures.

(** X18. In a run of the authenticated fixture no request comes before
    the login and none follows a login that raised: every request of
    the run is either the login, a POST of the credentials of the
    environment to the login path, or a request of the test body, made
    after the login returned and through a client built like the one of
    the plain fixture. *)
Theorem authenticated_fixture net m use c' :
  let creds := {| email := EnvConfig.MAIN_USER_LOGIN (Imports.env m);
                  password := EnvConfig.MAIN_USER_PASSWORD (Imports.env m) |} in
  c' ∈ (exec net (authenticatedTemplateAPIClient m use)).1 →
  ∃ c, (exec net (login m (new m) creds)).1 = [c] ∧
    call_verb c = VPost ∧
    call_url c = EnvConfig.API_BASE_URL (Imports.env m) +:+ "/" +:+
                 UrlsConfig.login (UrlsConfig.auth (Imports.urls m)) ∧
    call_data c = Some (credentials_js creds) ∧
    (c' = c ∨
     ∃ answer, (exec net (login m (new m) creds)).2 = Resolved answer ∧
               c' ∈ (use (new m) net [c]).1).
Proof.
  intros creds Hin.
  destruct (login_exec net m (new m) creds) as (c & Hlog & Hverb & Hurl & Hdata & _).
  exists c. split; [exact Hlog|]. split; [exact Hverb|].
  split; [exact Hurl|]. split; [exact Hdata|].
  unfold exec in *. unfold authenticatedTemplateAPIClient in Hin.
  unfold mbind, async_mbind, async_bind in Hin. fold creds in Hin.
  destruct (login m (new m) creds net []) as [log out]. simpl in Hlog. subst log.
  destruct out as [answer|e]; simpl in *.
  - right. exists answer. split; [reflexivity | exact Hin].
  - left. apply list_elem_of_singleton in Hin. exact Hin.
Qed.

Lemma authenticated_fixture_witness :
  ∃ c' c, c' ∈ (exec Scenarios.refusing_login
                  (authenticatedTemplateAPIClient Scenarios.loaded
                     Scenarios.fetch_once)).1
    ∧ call_url c = "https://x.test/api/auth/login"
    ∧ c' = c.
Proof.
  eexists. 
  destruct (authenticated_fixture Scenarios.refusing_login Scenarios.loaded
              Scenarios.fetch_once _ ltac:(vm_compute; apply list_elem_of_here))
    as (c & Hlog & _ & Hurl & _ & [Heq | (answer & Hans & _)]).
  - exists c. split; [vm_compute; apply list_elem_of_here|].
    split; [exact Hurl | exact Heq].
  - vm_compute in Hans. discriminate Hans.
Defined.

(** X19. The client of the authenticated fixture is not authenticated:
    when the test body fetches the data through it without a token,
    every request of the run, the login and the fetch after it, carries
    the placeholder bearer, whatever the login answered. *)
Theorem authenticated_fixture_sends_placeholder net m c :
  c ∈ (exec net (authenticatedTemplateAPIClient m
         (λ client, getData m client None ≫= λ _, mret tt))).1 →
  headers (call_config c) !! "Authorization" = Some "Bearer token".
Proof.
  unfold exec, authenticatedTemplateAPIClient, login, getData.
  unfold mbind, mret, async_mbind, async_mret, async_bind, async_ret.
  rewrite send_from_log, run_dispatch. simpl.
  match goal with
  | |- context [finish None ?cfg ?ans] => destruct (finish None cfg ans) as [v|e]
  end.
  - rewrite send_from_log, run_dispatch. simpl.
    match goal with
    | |- context [finish None ?cfg ?ans] => destruct (finish None cfg ans) as [v'|e]
    end; simpl; intros Hin; list_cases Hin.
    all: try (apply elem_of_cons in Hin as [-> | Hin]; [reflexivity|]).
    all: try (apply elem_of_cons in Hin as [-> | Hin]; [reflexivity|]).
    all: try (apply elem_of_nil in Hin as []).
  - simpl. intros Hin.
    apply elem_of_cons in Hin as [-> | Hin]; [reflexivity|].
    apply elem_of_nil in Hin as [].
Qed.

Lemma authenticated_fixture_sends_placeholder_witness :
  ∃ c1 c2, (exec (Samples.answering 200)
              (authenticatedTemplateAPIClient Scenarios.loaded
                 Scenarios.fetch_once)).1 = [c1; c2]
    ∧ call_url c2 = "https://x.test/api/template/data"
    ∧ headers (call_config c2) !! "Authorization" = Some "Bearer token".
Proof.
  eexists _, _. split; [vm_compute; reflexivity|]. split; [vm_compute; reflexivity|].
  apply (authenticated_fixture_sends_placeholder (Samples.answering 200)
           Scenarios.loaded).
  vm_compute. apply list_elem_of_further, list_elem_of_here.
Defined.
